(** * Structural diff of two API responses: scripts/compare_responses.py

    A shallow embedding of the response comparison script and the
    properties of its normaliser, its recursive structural differ and its
    report writer.

    Python objects produced by [json.loads] and [xmltodict.parse] are
    modelled by the type [value]; a [dict] is an association list in
    insertion order, whose keys are pairwise distinct (predicate [wf]).
    Library functions ([json.loads], [xmltodict.parse], [json.dumps],
    [difflib]) are parameters of the model. *)

From Stdlib Require Import List String Ascii ZArith Bool Lia PeanoNat.
From Stdlib Require Import Floats.SpecFloat.
From Stdlib Require Import Numbers.DecimalString.
From Stdlib Require Import Numbers.DecimalNat.
From Stdlib Require Import Sorting.Permutation.
Import ListNotations.

Local Open Scope list_scope.
Local Open Scope string_scope.

(* ================================================================== *)
(** ** Python values *)
(* ================================================================== *)

(** The objects the two parsers build: [None], [bool], [int] (unbounded),
    [float] (IEEE 754 binary64, here a [spec_float]), [str], [list] and
    [dict] with [str] keys. *)
#[local] Set Warnings "-register-all".
Inductive value : Type :=
| VNone
| VBool (b : bool)
| VInt (n : Z)
| VFloat (f : spec_float)
| VStr (s : string)
| VList (items : list value)
| VDict (entries : list (string * value)).

(** [d[k]] and [k in d] for a dict held as an association list. *)
Fixpoint dict_get (k : string) (d : list (string * value)) : option value :=
  match d with
  | [] => None
  | (k', v) :: rest => if String.eqb k k' then Some v else dict_get k rest
  end.

Definition dict_contains (k : string) (d : list (string * value)) : bool :=
  match dict_get k d with Some _ => true | None => false end.

Definition dict_keys (d : list (string * value)) : list string := map fst d.

Fixpoint mem_key (k : string) (ks : list string) : bool :=
  match ks with
  | [] => false
  | k' :: rest => String.eqb k k' || mem_key k rest
  end.

Fixpoint distinct_keys (ks : list string) : bool :=
  match ks with
  | [] => true
  | k :: rest => negb (mem_key k rest) && distinct_keys rest
  end.

(** Representation invariant of [value]: every dict has pairwise distinct
    keys, at every depth. *)
Fixpoint wf (v : value) : bool :=
  match v with
  | VList items => forallb wf items
  | VDict entries =>
      distinct_keys (map fst entries) && forallb (fun kv => wf (snd kv)) entries
  | _ => true
  end.

(** No NaN anywhere: JSON has no literal for it. *)
Fixpoint nan_free (v : value) : bool :=
  match v with
  | VFloat S754_nan => false
  | VList items => forallb nan_free items
  | VDict entries => forallb (fun kv => nan_free (snd kv)) entries
  | _ => true
  end.

(** The values that parsing a JSON document can give. *)
Definition json_value (v : value) : bool := wf v && nan_free v.

Definition is_dict (v : value) : bool :=
  match v with VDict _ => true | _ => false end.

Definition is_list (v : value) : bool :=
  match v with VList _ => true | _ => false end.

Definition is_scalar (v : value) : bool := negb (is_dict v) && negb (is_list v).

(* ------------------------------------------------------------------ *)
(** *** Python's [==] on these values *)

(** [bool] is a subclass of [int]; [int] and [float] compare by exact
    numeric value; [float] follows IEEE 754 (NaN differs from itself,
    the two zeros are equal). *)
Inductive number : Type :=
| NumInt (n : Z)
| NumFloat (f : spec_float).

Definition int_of_bool (b : bool) : Z := if b then 1%Z else 0%Z.

Definition as_number (v : value) : option number :=
  match v with
  | VBool b => Some (NumInt (int_of_bool b))
  | VInt n => Some (NumInt n)
  | VFloat f => Some (NumFloat f)
  | _ => None
  end.

Definition int_eq_float (n : Z) (f : spec_float) : bool :=
  match f with
  | S754_zero _ => (n =? 0)%Z
  | S754_finite s m e =>
      let sm := if s then Zneg m else Zpos m in
      if (0 <=? e)%Z then (n =? sm * 2 ^ e)%Z else (n * 2 ^ (- e) =? sm)%Z
  | S754_infinity _ | S754_nan => false
  end.

Definition number_eq (x y : number) : bool :=
  match x, y with
  | NumInt a, NumInt b => (a =? b)%Z
  | NumInt a, NumFloat f | NumFloat f, NumInt a => int_eq_float a f
  | NumFloat f, NumFloat g => SFeqb f g
  end.

(** [a == b].  Containers of the same kind compare element-wise (a dict
    regardless of order); the differ never reaches [!=] with two dicts or
    two lists, so CPython's identity shortcut inside containers plays no
    part here. *)
Fixpoint py_eq (a b : value) {struct a} : bool :=
  match a, b with
  | VNone, VNone => true
  | VStr s, VStr t => String.eqb s t
  | VList xs, VList ys =>
      (fix all_eq (xs ys : list value) {struct xs} : bool :=
         match xs, ys with
         | [], [] => true
         | x :: xs', y :: ys' => py_eq x y && all_eq xs' ys'
         | _, _ => false
         end) xs ys
  | VDict d, VDict e =>
      (List.length d =? List.length e)%nat
      && forallb (fun kv => match dict_get (fst kv) e with
                            | Some w => py_eq (snd kv) w
                            | None => false
                            end) d
  | _, _ =>
      match as_number a, as_number b with
      | Some x, Some y => number_eq x y
      | _, _ => false
      end
  end.

Definition py_ne (a b : value) : bool := negb (py_eq a b).

(* ================================================================== *)
(** ** Comparison logic *)
(* ================================================================== *)

(** Python truthiness of a [str]. *)
Definition truthy (s : string) : bool :=
  match s with EmptyString => false | String _ _ => true end.

(** [full_path(sub)], the closure of [compare_dicts] over [path]:
    [f"{path}.{sub}" if path else str(sub)]. *)
Definition full_path (path sub : string) : string :=
  if truthy path then path ++ "." ++ sub else sub.

(** [f"[{i}]"]. *)
Definition bracket (i : nat) : string :=
  "[" ++ NilZero.string_of_uint (Nat.to_uint i) ++ "]".

(** [path or "/"]. *)
Definition or_slash (path : string) : string :=
  if truthy path then path else "/".

(** The three dict literals appended to [changes]. *)
Definition removed (path : string) (old : value) : value :=
  VDict [("type", VStr "removed"); ("path", VStr path); ("old", old)].

Definition added (path : string) (new : value) : value :=
  VDict [("type", VStr "added"); ("path", VStr path); ("new", new)].

Definition modified (path : string) (old new : value) : value :=
  VDict [("type", VStr "modified"); ("path", VStr path);
         ("old", old); ("new", new)].

(** The loop bodies of [compare_dicts], with [changes] threaded through
    them as the source appends to it; [compare] stands for the recursive
    call. *)
Section Loops.
Variable compare : value -> value -> string -> list value.
Variable path : string.

(** [for k in old:] over the entries of [old], where [old[k]] is the
    entry's value. *)
Fixpoint for_k_in_old (new_d : list (string * value))
    (items : list (string * value)) (changes : list value) : list value :=
  match items with
  | [] => changes
  | (k, old_k) :: rest =>
      for_k_in_old new_d rest
        (match dict_get k new_d with
         | None => changes ++ [removed (full_path path k) old_k]
         | Some new_k => changes ++ compare old_k new_k (full_path path k)
         end)%list
  end.

(** [for k in new:] *)
Definition for_k_in_new (old_d : list (string * value))
    (items : list (string * value)) (changes : list value) : list value :=
  fold_left
    (fun (changes : list value) (kv : string * value) =>
       if negb (dict_contains (fst kv) old_d)
       then (changes ++ [added (full_path path (fst kv)) (snd kv)])%list
       else changes)
    items changes.

(** [for i in range(minlen):] walking [old] and [new] in step from
    index [i]; it ends with the shorter list, after [minlen] rounds. *)
Fixpoint for_i_in_range (olds news : list value) (i : nat)
    (changes : list value) : list value :=
  match olds, news with
  | old_i :: olds', new_i :: news' =>
      for_i_in_range olds' news' (S i)
        (changes ++ compare old_i new_i (full_path path (bracket i)))%list
  | _, _ => changes
  end.

(** [for i in range(minlen, len(l)):] appending one record for [l[i]]. *)
Definition for_i_in_surplus (record : string -> value -> value)
    (l : list value) (minlen : nat) (changes : list value) : list value :=
  fold_left
    (fun (changes : list value) (i : nat) =>
       (changes ++ [record (full_path path (bracket i)) (nth i l VNone)])%list)
    (seq minlen (List.length l - minlen)) changes.
End Loops.

(** [compare_dicts(old, new, path)]. *)
Fixpoint compare_dicts (old new : value) (path : string) {struct old}
  : list value :=
  match old, new with
  | VDict old_d, VDict new_d =>
      let changes := [] in
      let changes := for_k_in_old compare_dicts path new_d old_d changes in
      let changes := for_k_in_new path old_d new_d changes in
      changes
  | VList old_l, VList new_l =>
      let changes := [] in
      let minlen := Nat.min (List.length old_l) (List.length new_l) in
      let changes := for_i_in_range compare_dicts path old_l new_l 0 changes in
      if (List.length new_l <? List.length old_l)%nat then
        for_i_in_surplus path removed old_l minlen changes
      else if (List.length old_l <? List.length new_l)%nat then
        for_i_in_surplus path added new_l minlen changes
      else changes
  | _, _ =>
      if py_ne old new then [modified (or_slash path) old new] else []
  end.

(* ------------------------------------------------------------------ *)
(** *** Paths and change records *)

(** A path is a sequence of segments: a field name or a list index. *)
Inductive segment : Type :=
| Field (name : string)
| Index (i : nat).

(** The string [compare_dicts] hands to [full_path] for a segment. *)
Definition segment_str (s : segment) : string :=
  match s with
  | Field name => name
  | Index i => bracket i
  end.

(** The path string [compare_dicts] has built after descending along
    [segs] from [path]: one call of [full_path] per segment. *)
Definition extend_path (path : string) (segs : list segment) : string :=
  fold_left (fun p s => full_path p (segment_str s)) segs path.

Definition render (segs : list segment) : string := extend_path "" segs.

(** Following a path into a document. *)
Fixpoint resolve (segs : list segment) (doc : value) : option value :=
  match segs with
  | [] => Some doc
  | Field k :: rest =>
      match doc with
      | VDict d =>
          match dict_get k d with
          | Some v => resolve rest v
          | None => None
          end
      | _ => None
      end
  | Index i :: rest =>
      match doc with
      | VList l =>
          match nth_error l i with
          | Some v => resolve rest v
          | None => None
          end
      | _ => None
      end
  end.

(** [r[key]] for a change record. *)
Definition record_get (key : string) (r : value) : option value :=
  match r with
  | VDict d => dict_get key d
  | _ => None
  end.

(** [r] is the change record for the place [segs] of the documents [old]
    and [new], reached from the path string [path]: its values are those
    found there.  Only a [modified] record can sit at [path] itself. *)
Definition located (r : value) (path : string) (segs : list segment)
    (old new : value) : Prop :=
  (exists ov, r = removed (extend_path path segs) ov
              /\ resolve segs old = Some ov /\ segs <> [])
  \/ (exists nv, r = added (extend_path path segs) nv
                 /\ resolve segs new = Some nv /\ segs <> [])
  \/ (exists ov nv, r = modified (or_slash (extend_path path segs)) ov nv
                    /\ resolve segs old = Some ov
                    /\ resolve segs new = Some nv).

(** The form of a change record emitted after descending along [segs]
    from the path string [path], whatever the documents: a [modified]
    record holds a pair of values that reached the final comparison and
    failed it. *)
Definition emitted_at (r : value) (path : string) (segs : list segment)
  : Prop :=
  (exists v, r = removed (extend_path path segs) v /\ segs <> [])
  \/ (exists v, r = added (extend_path path segs) v /\ segs <> [])
  \/ (exists ov nv, r = modified (or_slash (extend_path path segs)) ov nv
                    /\ is_dict ov && is_dict nv = false
                    /\ is_list ov && is_list nv = false
                    /\ py_eq ov nv = false).

(** [r'] is [r] read in the other direction. *)
Definition mirrored (r r' : value) : Prop :=
  (exists p v, r = removed p v /\ r' = added p v)
  \/ (exists p v, r = added p v /\ r' = removed p v)
  \/ (exists p a b, r = modified p a b /\ r' = modified p b a).

(** The segment strings joined by dots, as the script builds them: leading
    empty field names leave the path empty, so they leave no trace. *)
Fixpoint skip_empty (segs : list segment) : list segment :=
  match segs with
  | Field "" :: rest => skip_empty rest
  | _ => segs
  end.

Definition dotted (segs : list segment) : string :=
  String.concat "." (map segment_str (skip_empty segs)).

(** The rendering of a path in the words of the specification: a field
    name contributes [.name], an index contributes [[i]] with no dot
    before the bracket, the leading dot is dropped, and the empty path
    is [/]. *)
Definition spec_contribution (s : segment) : string :=
  match s with
  | Field name => "." ++ name
  | Index i => bracket i
  end.

Definition drop_leading_dot (s : string) : string :=
  match s with
  | String "."%char rest => rest
  | _ => s
  end.

Definition spec_render (segs : list segment) : string :=
  match segs with
  | [] => "/"
  | _ => drop_leading_dot (String.concat "" (map spec_contribution segs))
  end.

(* ------------------------------------------------------------------ *)
(** *** Reading a path string back *)

Fixpoint has_dot (s : string) : bool :=
  match s with
  | EmptyString => false
  | String c rest => Ascii.eqb c "." || has_dot rest
  end.

(** The pieces of a string between its dots, as [str.split(".")] gives
    them. *)
Fixpoint split_dots (s : string) : list string :=
  match s with
  | EmptyString => [EmptyString]
  | String c rest =>
      if Ascii.eqb c "." then EmptyString :: split_dots rest
      else
        match split_dots rest with
        | piece :: pieces => String c piece :: pieces
        | [] => [String c EmptyString]
        end
  end.

(** The index written between brackets, if the piece is [[digits]]. *)
Definition unbracket (piece : string) : option nat :=
  match piece with
  | String "["%char body =>
      match rev (list_ascii_of_string body) with
      | "]"%char :: digits_rev =>
          option_map Nat.of_uint
            (NilZero.uint_of_string (string_of_list_ascii (rev digits_rev)))
      | _ => None
      end
  | _ => None
  end.

Definition parse_segment (piece : string) : segment :=
  match unbracket piece with
  | Some i => Index i
  | None => Field piece
  end.

(** The segments a path string stands for: [/] is the root; otherwise
    the pieces between the dots, a piece [[i]] being the index [i] and
    any other piece a field name. *)
Definition parse_path (p : string) : list segment :=
  if String.eqb p "/" then [] else map parse_segment (split_dots p).

(** Resolving a path string against a document. *)
Definition resolve_path (p : string) (doc : value) : option value :=
  resolve (parse_path p) doc.

(** Keys that can be told apart from the punctuation of a path string
    when they are joined by dots: not empty and without a dot. *)
Definition simple_key (k : string) : bool :=
  negb (String.eqb k "") && negb (has_dot k).

(** Keys that a path string gives back: simple, and neither [/] nor of
    the form [[digits]]. *)
Definition plain_key (k : string) : bool :=
  simple_key k && negb (String.eqb k "/")
  && match unbracket k with Some _ => false | None => true end.

Fixpoint simple_keys (v : value) : bool :=
  match v with
  | VList items => forallb simple_keys items
  | VDict entries =>
      forallb (fun kv => simple_key (fst kv) && simple_keys (snd kv)) entries
  | _ => true
  end.

Fixpoint plain_keys (v : value) : bool :=
  match v with
  | VList items => forallb plain_keys items
  | VDict entries =>
      forallb (fun kv => plain_key (fst kv) && plain_keys (snd kv)) entries
  | _ => true
  end.

Definition plain_segment (s : segment) : bool :=
  match s with
  | Field k => plain_key k
  | Index _ => true
  end.

(** The path string of a change record. *)
Definition record_path (r : value) : string :=
  match record_get "path" r with
  | Some (VStr p) => p
  | _ => ""
  end.

(** [p] is the path string [q], or lies under it. *)
Definition at_or_under (q p : string) : Prop :=
  p = q \/ exists rest, p = q ++ "." ++ rest.

(* ================================================================== *)
(** ** Exceptions and the file system *)
(* ================================================================== *)

(** A raised exception, by class name. *)
Inductive exn : Type := Exn (class_name : string).

(** A call returns a value or raises. *)
Inductive outcome (A : Type) : Type :=
| Returns (a : A)
| Raises (e : exn).
Arguments Returns {A} a.
Arguments Raises {A} e.

(** What the script can touch: regular files with their text, the
    directories, and what was printed. *)
Record world : Type := mkWorld {
  files : list (string * string);
  dirs : list string;
  stdout : list string
}.

(** A statement sequence acting on the world. *)
Definition io (A : Type) : Type := world -> outcome A * world.

Class Sequencing (m : Type -> Type) : Type := {
  unit_ : forall {A}, A -> m A;
  then_ : forall {A B}, m A -> (A -> m B) -> m B
}.

#[global] Instance outcome_seq : Sequencing outcome := {|
  unit_ := fun A a => Returns a;
  then_ := fun A B c k =>
    match c with
    | Returns a => k a
    | Raises e => Raises e
    end
|}.

#[global] Instance io_seq : Sequencing io := {|
  unit_ := fun A a w => (Returns a, w);
  then_ := fun A B c k w =>
    match c w with
    | (Returns a, w') => k a w'
    | (Raises e, w') => (Raises e, w')
    end
|}.

Notation "x <- c ;; k" := (then_ c (fun x => k))
  (at level 61, c at next level, right associativity).
Notation "c ;;; k" := (then_ c (fun _ => k))
  (at level 61, right associativity).

(** A call without effect on the world, inside a statement sequence. *)
Definition pure_call {A} (c : outcome A) : io A := fun w => (c, w).

Fixpoint file_text (p : string) (fs : list (string * string)) : option string :=
  match fs with
  | [] => None
  | (p', t) :: rest => if String.eqb p p' then Some t else file_text p rest
  end.

(** [Path.read_text(encoding="utf-8")].  A file of the world holds
    bytes; [decode_text] is what the text layer makes of them (decoding,
    newline translation): the text, or the exception it raises
    ([UnicodeDecodeError] on bytes that are not UTF-8). *)
Definition read_text (decode_text : string -> outcome string) (p : string)
  : io string :=
  fun w =>
    match file_text p (files w) with
    | Some bytes => (decode_text bytes, w)
    | None =>
        if mem_key p (dirs w) then (Raises (Exn "IsADirectoryError"), w)
        else (Raises (Exn "FileNotFoundError"), w)
    end.

(** [Path.write_text(text, encoding="utf-8")]: the file is opened for
    writing, which empties it, and then gets the bytes of the text;
    [encode_text] gives these bytes or the exception of the encoder
    ([UnicodeEncodeError] on a lone surrogate), which leaves the file
    empty.  The latest content of a file is found first.  The parent
    directory is taken to exist. *)
Definition write_text (encode_text : string -> outcome string) (p t : string)
  : io unit :=
  fun w =>
    if mem_key p (dirs w) then (Raises (Exn "IsADirectoryError"), w)
    else
      match encode_text t with
      | Returns bytes =>
          (Returns tt, mkWorld ((p, bytes) :: files w) (dirs w) (stdout w))
      | Raises e =>
          (Raises e, mkWorld ((p, "") :: files w) (dirs w) (stdout w))
      end.

(** [Path.mkdir(exist_ok=True)]. *)
Definition mkdir_exist_ok (d : string) : io unit :=
  fun w =>
    match file_text d (files w) with
    | Some _ => (Raises (Exn "FileExistsError"), w)
    | None =>
        if mem_key d (dirs w) then (Returns tt, w)
        else (Returns tt, mkWorld (files w) (d :: dirs w) (stdout w))
    end.

Definition print (line : string) : io unit :=
  fun w => (Returns tt, mkWorld (files w) (dirs w) (stdout w ++ [line])%list).

(** A statement sequence that leaves every file alone but the three
    reports. *)
Definition keeps_other_files {A : Type} (c : io A) : Prop :=
  forall (w w' : world) (o : outcome A) (p : string),
    c w = (o, w') ->
    p <> "diff_output/diff_report.txt" ->
    p <> "diff_output/diff_report.html" ->
    p <> "diff_output/diff_report.json" ->
    file_text p (files w') = file_text p (files w).

(** [output_dir / name]. *)
Definition path_join (d name : string) : string := d ++ "/" ++ name.

Definition is_not_None (v : value) : bool :=
  match v with VNone => false | _ => true end.

(* ================================================================== *)
(** ** Utility functions and the main function *)
(* ================================================================== *)

Section Script.
(** The library calls of the script.  [json.loads] and
    [xmltodict.parse] return or raise. *)
Variable json_loads : string -> outcome value.
Variable xmltodict_parse : string -> outcome value.
(** [json.dumps(obj, indent, sort_keys, ensure_ascii)]. *)
Variable json_dumps : value -> nat -> bool -> bool -> string.
Variable py_str : value -> string.
(** [str.splitlines(keepends=True)]. *)
Variable splitlines : string -> list string.
(** [difflib.unified_diff(a, b, fromfile, tofile)], as a list. *)
Variable unified_diff :
  list string -> list string -> string -> string -> list string.
(** [HtmlDiff().make_file(a, b, fromdesc, todesc)]. *)
Variable make_file : list string -> list string -> string -> string -> string.
(** [Path.name]. *)
Variable name_of : string -> string.
(** The text layer of a file opened with [encoding="utf-8"]. *)
Variable decode_text : string -> outcome string.
Variable encode_text : string -> outcome string.

(** [try: return json.loads(text)  except: return None] *)
Definition try_parse_json (text : string) : outcome value :=
  match json_loads text with
  | Returns v => Returns v
  | Raises _ => Returns VNone
  end.

(** [try: return xmltodict.parse(text)  except: return None] *)
Definition try_parse_xml (text : string) : outcome value :=
  match xmltodict_parse text with
  | Returns v => Returns v
  | Raises _ => Returns VNone
  end.

Definition normalize_to_object (text : string) : outcome (value * string) :=
  json_obj <- try_parse_json text ;;
  if is_not_None json_obj then unit_ (json_obj, "json")
  else
    xml_obj <- try_parse_xml text ;;
    if is_not_None xml_obj then unit_ (xml_obj, "xml")
    else unit_ (VNone, "text").

Definition pretty_text_from_obj (obj : value) (fmt : string) : string :=
  if String.eqb fmt "json" || String.eqb fmt "xml"
  then json_dumps obj 2 true false
  else py_str obj.

(** The object written when there is no structured diff. *)
Definition placeholder : value :=
  VDict [("info",
          VStr "Structured diff unavailable; see diff_report.txt or diff_report.html.")].

Definition compare_files (old_file new_file : string) : io unit :=
  raw_old <- read_text decode_text old_file ;;
  raw_new <- read_text decode_text new_file ;;
  old_norm <- pure_call (normalize_to_object raw_old) ;;
  new_norm <- pure_call (normalize_to_object raw_new) ;;
  let '(obj_old, fmt_old) := old_norm in
  let '(obj_new, fmt_new) := new_norm in
  let structured_diff : option (list value) := None in
  let pretty_old := raw_old in
  let pretty_new := raw_new in
  let '(structured_diff, pretty_old, pretty_new) :=
    if is_not_None obj_old && is_not_None obj_new
       && String.eqb fmt_old fmt_new
    then
      (Some (compare_dicts obj_old obj_new ""),
       pretty_text_from_obj obj_old fmt_old,
       pretty_text_from_obj obj_new fmt_new)
    else
      (structured_diff,
       if is_not_None obj_old then pretty_text_from_obj obj_old fmt_old
       else pretty_old,
       if is_not_None obj_new then pretty_text_from_obj obj_new fmt_new
       else pretty_new) in
  let output_dir := "diff_output" in
  mkdir_exist_ok output_dir ;;;
  let old_lines := splitlines pretty_old in
  let new_lines := splitlines pretty_new in
  let udiff :=
    unified_diff old_lines new_lines (name_of old_file) (name_of new_file) in
  write_text encode_text (path_join output_dir "diff_report.txt")
    (String.concat "" udiff) ;;;
  let html_diff :=
    make_file old_lines new_lines (name_of old_file) (name_of new_file) in
  write_text encode_text (path_join output_dir "diff_report.html") html_diff ;;;
  match structured_diff with
  | Some changes =>
      write_text encode_text (path_join output_dir "diff_report.json")
        (json_dumps (VList changes) 2 false false)
  | None =>
      write_text encode_text (path_join output_dir "diff_report.json")
        (json_dumps placeholder 2 false true)
  end ;;;
  print "✅ Comparison complete!" ;;;
  print "Reports generated in diff_output/ folder".
End Script.

(* ================================================================== *)
(** ** Entry point *)
(* ================================================================== *)

(** [sys.exit(code)] raises [SystemExit]; the exception carries the exit
    status. *)
Definition SystemExit (code : nat) : exn :=
  Exn ("SystemExit: " ++ NilZero.string_of_uint (Nat.to_uint code)).

Definition sys_exit {A : Type} (code : nat) : io A :=
  fun w => (Raises (SystemExit code), w).

(** [Path.exists()]: there is a regular file or a directory of that name. *)
Definition path_exists (p : string) : io bool :=
  fun w =>
    (Returns (match file_text p (files w) with
              | Some _ => true
              | None => mem_key p (dirs w)
              end), w).

Section EntryPoint.
Variable json_loads : string -> outcome value.
Variable xmltodict_parse : string -> outcome value.
Variable json_dumps : value -> nat -> bool -> bool -> string.
Variable py_str : value -> string.
Variable splitlines : string -> list string.
Variable unified_diff :
  list string -> list string -> string -> string -> list string.
Variable make_file : list string -> list string -> string -> string -> string.
Variable name_of : string -> string.
Variable decode_text : string -> outcome string.
Variable encode_text : string -> outcome string.

(** The block under [if __name__ == "__main__":], on [sys.argv]; a path
    is held as the string it was made from. *)
Definition main (argv : list string) : io unit :=
  if negb (List.length argv =? 3)%nat then
    print "Usage: python scripts/compare_responses.py <old_file> <new_file>" ;;;
    sys_exit 1
  else
    let old_path := nth 1 argv "" in
    let new_path := nth 2 argv "" in
    old_exists <- path_exists old_path ;;
    new_exists <- path_exists new_path ;;
    if negb old_exists || negb new_exists then
      print "❌ Error: One or both files not found." ;;;
      sys_exit 1
    else
      compare_files json_loads xmltodict_parse json_dumps py_str splitlines
        unified_diff make_file name_of decode_text encode_text
        old_path new_path.
End EntryPoint.

(* ================================================================== *)
(** ** A small instance of the library calls *)
(* ================================================================== *)

(** Enough of the libraries to run the script on a few texts: the JSON
    documents [null], [5] and [[1, 2]], the XML document [<a/>]; every
    other text is refused by both parsers. *)
Definition demo_json_loads (text : string) : outcome value :=
  if String.eqb text "null" then Returns VNone
  else if String.eqb text "5" then Returns (VInt 5)
  else if String.eqb text "[1, 2]" then Returns (VList [VInt 1; VInt 2])
  else Raises (Exn "JSONDecodeError").

Definition demo_xmltodict_parse (text : string) : outcome value :=
  if String.eqb text "<a/>" then Returns (VDict [("a", VNone)])
  else Raises (Exn "ExpatError").

Definition demo_json_dumps (obj : value) (indent : nat)
    (sort_keys ensure_ascii : bool) : string :=
  match obj with
  | VList _ => "[...]"
  | VDict _ => "{...}"
  | _ => "..."
  end.

Definition demo_splitlines (text : string) : list string := [text].

Definition demo_unified_diff (a b : list string) (fromfile tofile : string)
  : list string :=
  ("--- " ++ fromfile) :: ("+++ " ++ tofile) :: (a ++ b)%list.

Definition demo_make_file (a b : list string) (fromdesc todesc : string)
  : string :=
  String.concat "" (fromdesc :: todesc :: (a ++ b)%list).


(** The text layer of the small instance.  A text is held as the UTF-8
    bytes of its code points, a lone surrogate (U+D800 to U+DFFF) in the
    three-byte form 237, 160..191, 128..191, which the strict codec
    refuses in both directions. *)
Fixpoint has_surrogate (t : string) : bool :=
  match t with
  | String a (String b _ as rest) =>
      (Ascii.eqb a "237"
       && (160 <=? nat_of_ascii b)%nat && (nat_of_ascii b <=? 191)%nat)
      || has_surrogate rest
  | _ => false
  end.

Definition demo_decode_text (bytes : string) : outcome string :=
  if has_surrogate bytes then Raises (Exn "UnicodeDecodeError")
  else Returns bytes.

Definition demo_encode_text (text : string) : outcome string :=
  if has_surrogate text then Raises (Exn "UnicodeEncodeError")
  else Returns text.





(** A world with two JSON files. *)
Definition demo_json_world : world :=
  mkWorld [("a.json", "[1, 2]"); ("b.json", "5")] [] [].

(** 1.0 as a binary64 float. *)
Definition float_one : spec_float := S754_finite false 4503599627370496 (-52).

(** Two documents that differ inside a list under a field. *)
Definition doc_old : value := VDict [("a", VList [VInt 1])].
Definition doc_new : value := VDict [("a", VList [VInt 2]); ("b", VInt 2)].

(* ================================================================== *)
(** ** Induction on values *)
(* ================================================================== *)

Section ValueInduction.
Variable P : value -> Prop.
Hypothesis P_none : P VNone.
Hypothesis P_bool : forall b, P (VBool b).
Hypothesis P_int : forall n, P (VInt n).
Hypothesis P_float : forall f, P (VFloat f).
Hypothesis P_str : forall s, P (VStr s).
Hypothesis P_list :
  forall items, (forall x, In x items -> P x) -> P (VList items).
Hypothesis P_dict :
  forall entries, (forall k x, In (k, x) entries -> P x) -> P (VDict entries).

Fixpoint value_induction (v : value) : P v :=
  match v with
  | VNone => P_none
  | VBool b => P_bool b
  | VInt n => P_int n
  | VFloat f => P_float f
  | VStr s => P_str s
  | VList items =>
      P_list items
        ((fix below (l : list value) : forall x, In x l -> P x :=
            match l with
            | [] => fun x (H : In x []) => match H with end
            | y :: l' => fun x (H : In x (y :: l')) =>
                match H with
                | or_introl E => eq_ind y P (value_induction y) x E
                | or_intror H' => below l' x H'
                end
            end) items)
  | VDict entries =>
      P_dict entries
        ((fix below (l : list (string * value))
            : forall k x, In (k, x) l -> P x :=
            match l with
            | [] => fun k x (H : In (k, x) []) => match H with end
            | (k', y) :: l' => fun k x (H : In (k, x) ((k', y) :: l')) =>
                match H with
                | or_introl E =>
                    eq_ind y P (value_induction y) x (f_equal snd E)
                | or_intror H' => below l' k x H'
                end
            end) entries)
  end.
End ValueInduction.

(* ================================================================== *)
(** ** Dicts as association lists *)
(* ================================================================== *)

Lemma mem_key_In k ks : mem_key k ks = true <-> In k ks.
Proof.
  induction ks as [|k' ks IH]; simpl.
  - split; [discriminate | tauto].
  - rewrite orb_true_iff, IH. split; intros [H|H]; auto.
    + left. symmetry. now apply String.eqb_eq.
    + left. apply String.eqb_eq. now symmetry.
Qed.

Lemma dict_get_In k v d : dict_get k d = Some v -> In (k, v) d.
Proof.
  induction d as [|[k' v'] d IH]; simpl; [discriminate|].
  destruct (String.eqb_spec k k') as [->|Hne].
  - intros [= ->]. now left.
  - intros H. right. auto.
Qed.

Lemma dict_get_None k d : dict_get k d = None <-> ~ In k (map fst d).
Proof.
  induction d as [|[k' v'] d IH]; simpl.
  - tauto.
  - destruct (String.eqb_spec k k') as [->|Hne].
    + split; [discriminate | intros H; exfalso; apply H; now left].
    + rewrite IH. split; intros H; [intros [E|E]; [congruence | tauto] | tauto].
Qed.

(** In a dict with distinct keys, the value of an entry is [d[k]]. *)
Lemma dict_get_entry k v d :
  distinct_keys (map fst d) = true -> In (k, v) d -> dict_get k d = Some v.
Proof.
  induction d as [|[k' v'] d IH]; simpl; [tauto|].
  rewrite andb_true_iff, negb_true_iff. intros [Hfresh Hd] [E|Hin].
  - injection E as -> ->. now rewrite String.eqb_refl.
  - destruct (String.eqb_spec k k') as [->|Hne]; [|auto].
    exfalso. assert (Hk : mem_key k' (map fst d) = true).
    { apply mem_key_In. apply (in_map fst) in Hin. exact Hin. }
    congruence.
Qed.

Lemma dict_contains_true k v d : In (k, v) d -> dict_contains k d = true.
Proof.
  intros Hin. unfold dict_contains.
  destruct (dict_get k d) eqn:E; [reflexivity|].
  apply dict_get_None in E. exfalso. apply E.
  apply (in_map fst) in Hin. exact Hin.
Qed.

Lemma wf_entry k v d : wf (VDict d) = true -> In (k, v) d -> wf v = true.
Proof.
  simpl. rewrite andb_true_iff, forallb_forall. intros [_ H] Hin.
  exact (H (k, v) Hin).
Qed.

Lemma wf_keys d : wf (VDict d) = true -> distinct_keys (map fst d) = true.
Proof. simpl. rewrite andb_true_iff. tauto. Qed.

Lemma wf_item x l : wf (VList l) = true -> In x l -> wf x = true.
Proof. simpl. rewrite forallb_forall. auto. Qed.

(* ================================================================== *)
(** ** The loops, as the lists they append *)
(* ================================================================== *)

Section LoopFacts.
Variable compare : value -> value -> string -> list value.
Variable path : string.

Lemma for_k_in_old_appends new_d items changes :
  for_k_in_old compare path new_d items changes =
  (changes ++
   flat_map (fun kv =>
               match dict_get (fst kv) new_d with
               | None => [removed (full_path path (fst kv)) (snd kv)]
               | Some new_k =>
                   compare (snd kv) new_k (full_path path (fst kv))
               end) items)%list.
Proof.
  revert changes. induction items as [|[k old_k] rest IH]; intros changes.
  - simpl. now rewrite app_nil_r.
  - simpl. rewrite IH. destruct (dict_get k new_d); now rewrite <- app_assoc.
Qed.

Lemma for_k_in_new_appends old_d items changes :
  for_k_in_new path old_d items changes =
  (changes ++
   flat_map (fun kv =>
               if dict_contains (fst kv) old_d then []
               else [added (full_path path (fst kv)) (snd kv)]) items)%list.
Proof.
  unfold for_k_in_new. revert changes.
  induction items as [|[k new_k] rest IH]; intros changes.
  - simpl. now rewrite app_nil_r.
  - simpl. rewrite IH. destruct (dict_contains k old_d); simpl.
    + reflexivity.
    + now rewrite <- app_assoc.
Qed.

Lemma for_i_in_range_appends olds news i changes :
  for_i_in_range compare path olds news i changes =
  (changes ++
   flat_map (fun j =>
               compare (nth (j - i) olds VNone) (nth (j - i) news VNone)
                 (full_path path (bracket j)))
     (seq i (Nat.min (List.length olds) (List.length news))))%list.
Proof.
  revert news i changes.
  induction olds as [|o olds IH]; intros news i changes.
  - simpl. now rewrite app_nil_r.
  - destruct news as [|n news].
    + simpl. now rewrite app_nil_r.
    + simpl. rewrite IH, <- app_assoc, Nat.sub_diag. f_equal. f_equal.
      rewrite !flat_map_concat_map. f_equal.
      apply map_ext_in. intros j Hj. apply in_seq in Hj.
      replace (j - i) with (S (j - S i)) by lia. reflexivity.
Qed.

Lemma for_i_in_surplus_appends record l minlen changes :
  for_i_in_surplus path record l minlen changes =
  (changes ++
   map (fun i => record (full_path path (bracket i)) (nth i l VNone))
     (seq minlen (List.length l - minlen)))%list.
Proof.
  unfold for_i_in_surplus. generalize (seq minlen (List.length l - minlen)).
  intros idx. revert changes. induction idx as [|i idx IH]; intros changes.
  - simpl. now rewrite app_nil_r.
  - simpl. rewrite IH. now rewrite <- app_assoc.
Qed.
End LoopFacts.

(* ================================================================== *)
(** ** The three branches of [compare_dicts] *)
(* ================================================================== *)

Lemma compare_dicts_entries old_d new_d path :
  compare_dicts (VDict old_d) (VDict new_d) path =
  (flat_map (fun kv =>
               match dict_get (fst kv) new_d with
               | None => [removed (full_path path (fst kv)) (snd kv)]
               | Some new_k =>
                   compare_dicts (snd kv) new_k (full_path path (fst kv))
               end) old_d
   ++ flat_map (fun kv =>
                  if dict_contains (fst kv) old_d then []
                  else [added (full_path path (fst kv)) (snd kv)]) new_d)%list.
Proof.
  change (compare_dicts (VDict old_d) (VDict new_d) path)
    with (for_k_in_new path old_d new_d
            (for_k_in_old compare_dicts path new_d old_d [])).
  now rewrite for_k_in_new_appends, for_k_in_old_appends.
Qed.

Lemma compare_dicts_items old_l new_l path :
  compare_dicts (VList old_l) (VList new_l) path =
  (let minlen := Nat.min (List.length old_l) (List.length new_l) in
   flat_map (fun i =>
               compare_dicts (nth i old_l VNone) (nth i new_l VNone)
                 (full_path path (bracket i))) (seq 0 minlen)
   ++ (if (List.length new_l <? List.length old_l)%nat then
         map (fun i => removed (full_path path (bracket i)) (nth i old_l VNone))
           (seq minlen (List.length old_l - minlen))
       else if (List.length old_l <? List.length new_l)%nat then
         map (fun i => added (full_path path (bracket i)) (nth i new_l VNone))
           (seq minlen (List.length new_l - minlen))
       else []))%list.
Proof.
  change (compare_dicts (VList old_l) (VList new_l) path)
    with (let minlen := Nat.min (List.length old_l) (List.length new_l) in
          let changes := for_i_in_range compare_dicts path old_l new_l 0 [] in
          if (List.length new_l <? List.length old_l)%nat then
            for_i_in_surplus path removed old_l minlen changes
          else if (List.length old_l <? List.length new_l)%nat then
            for_i_in_surplus path added new_l minlen changes
          else changes).
  cbv zeta. rewrite for_i_in_range_appends. cbn [app].
  assert (E : forall l : list nat,
             flat_map (fun j =>
                         compare_dicts (nth (j - 0) old_l VNone)
                           (nth (j - 0) new_l VNone)
                           (full_path path (bracket j))) l =
             flat_map (fun i =>
                         compare_dicts (nth i old_l VNone) (nth i new_l VNone)
                           (full_path path (bracket i))) l).
  { intros l. apply flat_map_ext. intros j. now rewrite Nat.sub_0_r. }
  rewrite E.
  destruct (List.length new_l <? List.length old_l)%nat.
  - apply for_i_in_surplus_appends.
  - destruct (List.length old_l <? List.length new_l)%nat.
    + apply for_i_in_surplus_appends.
    + now rewrite app_nil_r.
Qed.

(** Every other pair of values goes to the final comparison. *)
Lemma compare_dicts_leaf old new path :
  is_dict old && is_dict new = false ->
  is_list old && is_list new = false ->
  compare_dicts old new path =
  if py_ne old new then [modified (or_slash path) old new] else [].
Proof.
  destruct old, new; simpl; intros; try reflexivity; discriminate.
Qed.

(* ================================================================== *)
(** ** Paths *)
(* ================================================================== *)

Lemma extend_path_cons path s segs :
  extend_path path (s :: segs) = extend_path (full_path path (segment_str s)) segs.
Proof. reflexivity. Qed.

(** A record found one segment further down is a record of the enclosing
    documents. *)
Lemma located_below r path s segs old new old_s new_s :
  resolve [s] old = Some old_s ->
  resolve [s] new = Some new_s ->
  located r (full_path path (segment_str s)) segs old_s new_s ->
  located r path (s :: segs) old new.
Proof.
  intros Hold Hnew.
  assert (Ho : resolve (s :: segs) old = resolve segs old_s).
  { destruct s, old; simpl in *; try discriminate.
    - destruct (dict_get name entries); [now injection Hold as -> | discriminate].
    - destruct (nth_error items i); [now injection Hold as -> | discriminate]. }
  assert (Hn : resolve (s :: segs) new = resolve segs new_s).
  { destruct s, new; simpl in *; try discriminate.
    - destruct (dict_get name entries); [now injection Hnew as -> | discriminate].
    - destruct (nth_error items i); [now injection Hnew as -> | discriminate]. }
  unfold located. rewrite extend_path_cons, Ho, Hn.
  intros [(ov & E & R & _) | [(nv & E & R & _) | (ov & nv & E & Ro & Rn)]].
  - left. exists ov. repeat split; [exact E | exact R | discriminate].
  - right. left. exists nv. repeat split; [exact E | exact R | discriminate].
  - right. right. exists ov, nv. auto.
Qed.

Lemma located_modified path old new :
  located (modified (or_slash path) old new) path [] old new.
Proof. right. right. exists old, new. simpl. auto. Qed.

Lemma nth_error_nth_in (l : list value) i :
  i < List.length l -> nth_error l i = Some (nth i l VNone).
Proof. intros H. now apply nth_error_nth'. Qed.

(** Every record that [compare_dicts] emits is located at some path of
    the two documents. *)
Lemma compare_dicts_located old :
  forall new path r,
    wf old = true -> wf new = true ->
    In r (compare_dicts old new path) ->
    exists segs, located r path segs old new.
Proof.
  assert (Leaf : forall old new path r,
             is_dict old && is_dict new = false ->
             is_list old && is_list new = false ->
             In r (compare_dicts old new path) ->
             exists segs, located r path segs old new).
  { intros o n path r Hd Hl. rewrite (compare_dicts_leaf o n path Hd Hl).
    destruct (py_ne o n); simpl; [|tauto].
    intros [<-|[]]. exists []. apply located_modified. }
  induction old using value_induction; intros new path r Hwo Hwn;
    try (apply Leaf; reflexivity).
  - (* lists *)
    destruct new as [| | | | |new_l|]; try (apply Leaf; reflexivity).
    rewrite compare_dicts_items. cbv zeta. rewrite in_app_iff, in_flat_map.
    intros [(i & Hi & Hr) | Hr].
    + apply in_seq in Hi.
      assert (Hio : i < List.length items) by lia.
      assert (Hin : i < List.length new_l) by lia.
      destruct (H (nth i items VNone) (nth_In _ _ Hio)
                  (nth i new_l VNone) (full_path path (bracket i)) r)
        as [segs Hs]; auto.
      * eapply wf_item; [exact Hwo | now apply nth_In].
      * eapply wf_item; [exact Hwn | now apply nth_In].
      * exists (Index i :: segs).
        eapply located_below; [| | exact Hs]; simpl;
          now rewrite nth_error_nth_in.
    + destruct (List.length new_l <? List.length items)%nat eqn:E1;
        [| destruct (List.length items <? List.length new_l)%nat eqn:E2;
           [| destruct Hr]];
        apply in_map_iff in Hr; destruct Hr as (i & <- & Hi);
        apply in_seq in Hi; exists [Index i].
      * left. exists (nth i items VNone). simpl.
        rewrite nth_error_nth_in by lia. repeat split. discriminate.
      * right. left. exists (nth i new_l VNone). simpl.
        rewrite nth_error_nth_in by lia. repeat split. discriminate.
  - (* dicts *)
    destruct new as [| | | | | |new_d]; try (apply Leaf; reflexivity).
    rewrite compare_dicts_entries, in_app_iff, !in_flat_map.
    intros [([k old_k] & Hin & Hr) | ([k new_k] & Hin & Hr)]; simpl in Hr.
    + pose proof (dict_get_entry k old_k entries (wf_keys _ Hwo) Hin) as Hget.
      destruct (dict_get k new_d) as [new_k|] eqn:Hnew.
      * destruct (H k old_k Hin new_k (full_path path k) r) as [segs Hs]; auto.
        -- eapply wf_entry; [exact Hwo | exact Hin].
        -- eapply wf_entry; [exact Hwn | eapply dict_get_In; eauto].
        -- exists (Field k :: segs).
           eapply located_below; [| | exact Hs]; simpl;
             [now rewrite Hget | now rewrite Hnew].
      * destruct Hr as [<-|[]]. exists [Field k]. left. exists old_k.
        simpl. rewrite Hget. repeat split. discriminate.
    + destruct (dict_contains k entries); [destruct Hr|].
      destruct Hr as [<-|[]]. exists [Field k]. right. left. exists new_k.
      simpl. rewrite (dict_get_entry k new_k new_d (wf_keys _ Hwn) Hin).
      repeat split. discriminate.
Qed.

(* ------------------------------------------------------------------ *)
(** *** The path string in closed form *)

Lemma string_app_assoc (a b c : string) : (a ++ b) ++ c = a ++ (b ++ c).
Proof. induction a as [|ch a IH]; simpl; [reflexivity | now rewrite IH]. Qed.

Lemma truthy_app p q : truthy p = true -> truthy (p ++ q) = true.
Proof. destruct p; simpl; [discriminate | reflexivity]. Qed.

Lemma concat_dot_push p x xs :
  String.concat "." ((p ++ "." ++ x) :: xs) = p ++ "." ++ String.concat "." (x :: xs).
Proof.
  destruct xs as [|y ys]; [reflexivity|].
  change (String.concat "." ((p ++ "." ++ x) :: y :: ys))
    with ((p ++ "." ++ x) ++ "." ++ String.concat "." (y :: ys)).
  change (String.concat "." (x :: y :: ys))
    with (x ++ "." ++ String.concat "." (y :: ys)).
  now rewrite !string_app_assoc.
Qed.

Lemma extend_path_truthy segs :
  forall p, truthy p = true ->
            extend_path p segs = String.concat "." (p :: map segment_str segs).
Proof.
  induction segs as [|s segs IH]; intros p Hp; [reflexivity|].
  rewrite extend_path_cons. unfold full_path at 1. rewrite Hp.
  rewrite IH by now apply truthy_app.
  apply concat_dot_push.
Qed.

Lemma render_dotted segs : render segs = dotted segs.
Proof.
  unfold render, dotted. induction segs as [|s segs IH]; [reflexivity|].
  rewrite extend_path_cons.
  destruct s as [[|c name]|i].
  - exact IH.
  - now apply extend_path_truthy.
  - now apply extend_path_truthy.
Qed.

(* ================================================================== *)
(** ** Change records and the documents *)
(* ================================================================== *)

(** C3, as the script does it.  The path string of a change record is
    the strings of its path segments, a field name as it is and an index
    as [[i]], joined by dots, a dot also before a bracket; field names
    that are empty at the head of the path leave no trace.  A [modified]
    record shows an empty string as [/]; the record at the root path is
    one of those. *)
Theorem change_record_path_string (old new r : value) :
  wf old = true -> wf new = true ->
  In r (compare_dicts old new "") ->
  exists segs ty,
    located r "" segs old new
    /\ record_get "type" r = Some (VStr ty)
    /\ record_get "path" r =
       Some (VStr (if String.eqb ty "modified" then or_slash (dotted segs)
                   else dotted segs))
    /\ (segs = [] -> record_get "path" r = Some (VStr "/")).
Proof.
  intros Ho Hn Hr.
  destruct (compare_dicts_located old new "" r Ho Hn Hr) as [segs Hs].
  exists segs.
  pose proof (render_dotted segs) as Hd. unfold render in Hd.
  destruct Hs as [(ov & E & R & Hne) | [(nv & E & R & Hne) | (ov & nv & E & Ro & Rn)]].
  - exists "removed". split; [left; now exists ov|]. subst r.
    rewrite Hd. repeat split. intros ->. now destruct Hne.
  - exists "added". split; [right; left; now exists nv|]. subst r.
    rewrite Hd. repeat split. intros ->. now destruct Hne.
  - exists "modified". split; [right; right; now exists ov, nv|]. subst r.
    rewrite Hd. repeat split. intros ->. reflexivity.
Qed.

Example dotted_example :
  dotted [Field "a"; Field "b"; Index 2; Field "c"] = "a.b.[2].c"
  /\ spec_render [Field "a"; Field "b"; Index 2; Field "c"] = "a.b[2].c".
Proof. split; reflexivity. Qed.

(** C3, as stated, fails below a field: the record for element 0 of the
    list under field [a] has path string [a.[0]], and the only path that
    leads to its values is rendered [a[0]] by the specification. *)
Lemma index_path_has_dot :
  let old := VDict [("a", VList [VInt 1])] in
  let new := VDict [("a", VList [VInt 2])] in
  compare_dicts old new "" = [modified "a.[0]" (VInt 1) (VInt 2)]
  /\ (forall segs, resolve segs old = Some (VInt 1) ->
                   segs = [Field "a"; Index 0])
  /\ spec_render [Field "a"; Index 0] = "a[0]"
  /\ record_get "path" (modified "a.[0]" (VInt 1) (VInt 2))
     <> Some (VStr (spec_render [Field "a"; Index 0])).
Proof.
  cbv zeta. split; [reflexivity|]. split; [|split; [reflexivity | discriminate]].
  intros segs.
  destruct segs as [|[k|i] segs]; simpl; try discriminate.
  destruct (String.eqb_spec k "a") as [->|_]; [|discriminate].
  destruct segs as [|[k|i] segs]; simpl; try discriminate.
  destruct i as [|i]; simpl; [|destruct i; discriminate].
  destruct segs as [|[k|i] segs]; simpl; [reflexivity | discriminate..].
Qed.

(* ================================================================== *)
(** ** A document against itself *)
(* ================================================================== *)

Lemma SFeqb_refl f : f <> S754_nan -> SFeqb f f = true.
Proof.
  intros Hf. unfold SFeqb, SFcompare.
  destruct f as [s|s| |s m e]; try reflexivity.
  - now destruct s.
  - now destruct Hf.
  - rewrite Z.compare_refl.
    change (Pos.compare_cont Eq m m) with (Pos.compare m m).
    rewrite Pos.compare_refl. now destruct s.
Qed.

Lemma flat_map_nil {A B} (f : A -> list B) l :
  (forall x, In x l -> f x = []) -> flat_map f l = [].
Proof.
  induction l as [|x l IH]; intros H; [reflexivity|].
  simpl. rewrite (H x (or_introl eq_refl)), IH; [reflexivity|].
  intros y Hy. apply H. now right.
Qed.

Lemma json_value_item x l :
  json_value (VList l) = true -> In x l -> json_value x = true.
Proof.
  unfold json_value. simpl. rewrite !andb_true_iff, !forallb_forall.
  intros [Hw Hn] Hin. auto.
Qed.

Lemma json_value_entry k v d :
  json_value (VDict d) = true -> In (k, v) d -> json_value v = true.
Proof.
  unfold json_value. simpl. rewrite !andb_true_iff, !forallb_forall.
  intros [[_ Hw] Hn] Hin. split; [exact (Hw _ Hin) | exact (Hn _ Hin)].
Qed.

Lemma compare_dicts_same A :
  forall path, json_value A = true -> compare_dicts A A path = [].
Proof.
  induction A using value_induction; intros path HA.
  - reflexivity.
  - simpl. unfold py_ne. simpl. now rewrite Z.eqb_refl.
  - simpl. unfold py_ne. simpl. now rewrite Z.eqb_refl.
  - simpl. unfold py_ne. simpl. rewrite SFeqb_refl; [reflexivity|].
    intros ->. discriminate.
  - simpl. unfold py_ne. simpl. now rewrite String.eqb_refl.
  - rewrite compare_dicts_items. cbv zeta.
    rewrite Nat.ltb_irrefl, app_nil_r.
    apply flat_map_nil. intros i Hi. apply in_seq in Hi.
    assert (Hin : In (nth i items VNone) items) by (apply nth_In; lia).
    apply H; [exact Hin | now apply (json_value_item _ items)].
  - rewrite compare_dicts_entries.
    assert (Hk : distinct_keys (map fst entries) = true).
    { apply wf_keys. unfold json_value in HA.
      now apply andb_true_iff in HA. }
    rewrite !flat_map_nil; [reflexivity | |].
    + intros [k v] Hin. simpl. now rewrite (dict_contains_true k v).
    + intros [k v] Hin. simpl. rewrite (dict_get_entry k v entries Hk Hin).
      apply (H k v Hin). now apply (json_value_entry k v entries).
Qed.

(** C4.  A value parsed from a JSON document, compared with itself from
    the empty path, gives no change record. *)
Theorem compare_dicts_self_empty (A : value) :
  json_value A = true -> compare_dicts A A "" = [].
Proof. apply compare_dicts_same. Qed.

(** The hypothesis cannot go: Python's [json.loads] also reads the
    literal [NaN], and NaN differs from itself. *)
Example nan_differs_from_itself :
  compare_dicts (VFloat S754_nan) (VFloat S754_nan) ""
  = [modified "/" (VFloat S754_nan) (VFloat S754_nan)].
Proof. reflexivity. Qed.

(* ================================================================== *)
(** ** Mappings, sequences and leaves *)
(* ================================================================== *)

Lemma flat_map_keys {B} (f : string -> value -> list B)
    (g : string -> list B) (d : list (string * value)) :
  (forall k v, In (k, v) d -> g k = f k v) ->
  flat_map g (map fst d) = flat_map (fun kv => f (fst kv) (snd kv)) d.
Proof.
  intros H. rewrite !flat_map_concat_map, map_map. f_equal.
  apply map_ext_in. intros [k v] Hin. simpl. now apply H.
Qed.

(** C5.  For two mappings the records are, in this order: along the keys
    of [old] in its order, the [removed] record with [old[k]] when [k] is
    not in [new] and otherwise the diff of [old[k]] and [new[k]] at the
    extended path; then along the keys of [new] in its order, the [added]
    record with [new[k]] for each key that is not in [old].  A key added
    to [{a: 1}] gives the single [added] record for it. *)
Theorem compare_dicts_mappings (old_d new_d : list (string * value))
    (path : string) :
  distinct_keys (dict_keys old_d) = true ->
  distinct_keys (dict_keys new_d) = true ->
  compare_dicts (VDict old_d) (VDict new_d) path =
  (flat_map (fun k =>
               match dict_get k old_d, dict_get k new_d with
               | Some old_k, None => [removed (full_path path k) old_k]
               | Some old_k, Some new_k =>
                   compare_dicts old_k new_k (full_path path k)
               | None, _ => []
               end) (dict_keys old_d)
   ++ flat_map (fun k =>
                  match dict_get k old_d, dict_get k new_d with
                  | None, Some new_k => [added (full_path path k) new_k]
                  | _, _ => []
                  end) (dict_keys new_d))%list
  /\ compare_dicts (VDict [("a", VInt 1)])
       (VDict [("a", VInt 1); ("b", VInt 2)]) ""
     = [added "b" (VInt 2)].
Proof.
  intros Ho Hn. split; [|reflexivity].
  rewrite compare_dicts_entries. unfold dict_keys. f_equal.
  - symmetry.
    apply (flat_map_keys
             (fun k old_k =>
                match dict_get k new_d with
                | None => [removed (full_path path k) old_k]
                | Some new_k => compare_dicts old_k new_k (full_path path k)
                end)).
    intros k v Hin. now rewrite (dict_get_entry k v old_d Ho Hin).
  - symmetry.
    apply (flat_map_keys
             (fun k new_k =>
                if dict_contains k old_d then []
                else [added (full_path path k) new_k])).
    intros k v Hin. rewrite (dict_get_entry k v new_d Hn Hin).
    unfold dict_contains. now destruct (dict_get k old_d).
Qed.

(** C6.  For two sequences the records are the diffs of [old[i]] and
    [new[i]] for [i] from 0 below the shorter length, in this order, then
    one record for each further index of the longer sequence, ascending:
    [removed] with [old[i]] when [old] is longer, [added] with [new[i]]
    when [new] is longer.  Dropping or adding a third element gives the
    single record at [[2]]. *)
Theorem compare_dicts_sequences (old_l new_l : list value) (path : string) :
  let minlen := Nat.min (List.length old_l) (List.length new_l) in
  compare_dicts (VList old_l) (VList new_l) path =
  (flat_map (fun i =>
               compare_dicts (nth i old_l VNone) (nth i new_l VNone)
                 (full_path path (bracket i))) (seq 0 minlen)
   ++ (if (List.length new_l <? List.length old_l)%nat then
         map (fun i => removed (full_path path (bracket i)) (nth i old_l VNone))
           (seq minlen (List.length old_l - minlen))
       else
         map (fun i => added (full_path path (bracket i)) (nth i new_l VNone))
           (seq minlen (List.length new_l - minlen))))%list
  /\ compare_dicts (VList [VInt 1; VInt 2; VInt 3]) (VList [VInt 1; VInt 2]) ""
     = [removed "[2]" (VInt 3)]
  /\ compare_dicts (VList [VInt 1; VInt 2]) (VList [VInt 1; VInt 2; VInt 3]) ""
     = [added "[2]" (VInt 3)].
Proof.
  cbv zeta. split; [|split; reflexivity].
  rewrite compare_dicts_items. cbv zeta. f_equal.
  destruct (List.length new_l <? List.length old_l)%nat eqn:E1; [reflexivity|].
  destruct (List.length old_l <? List.length new_l)%nat eqn:E2; [reflexivity|].
  apply Nat.ltb_ge in E1, E2.
  replace (List.length new_l - Nat.min (List.length old_l) (List.length new_l))
    with 0 by lia.
  reflexivity.
Qed.

Lemma or_slash_eqb path : or_slash path = if String.eqb path "" then "/" else path.
Proof. now destruct path. Qed.

(** C7.  When one value is a mapping and the other is not, or one is a
    sequence and the other is not, or both are scalars that Python finds
    unequal, the result is the single [modified] record with both values,
    at the current path, the empty path shown as [/].  So for 5 against
    the string ["5"]. *)
Theorem compare_dicts_mismatch (old new : value) (path : string) :
  is_dict old <> is_dict new
  \/ is_list old <> is_list new
  \/ (is_scalar old = true /\ is_scalar new = true /\ py_eq old new = false) ->
  compare_dicts old new path
  = [modified (if String.eqb path "" then "/" else path) old new]
  /\ compare_dicts (VInt 5) (VStr "5") "" = [modified "/" (VInt 5) (VStr "5")].
Proof.
  intros H. split; [|reflexivity]. rewrite <- or_slash_eqb.
  assert (Hne : py_ne old new = true
                /\ is_dict old && is_dict new = false
                /\ is_list old && is_list new = false).
  { destruct H as [H | [H | (Ho & Hn & H)]].
    - destruct old, new; simpl in H; try (now destruct H);
        repeat split; reflexivity.
    - destruct old, new; simpl in H; try (now destruct H);
        repeat split; reflexivity.
    - unfold py_ne. rewrite H.
      destruct old; try discriminate; destruct new; try discriminate;
        repeat split; reflexivity. }
  destruct Hne as (Hne & Hd & Hl).
  now rewrite (compare_dicts_leaf old new path Hd Hl), Hne.
Qed.

Example float_one_is_binary64 :
  bounded 53 1024 4503599627370496 (-52) = true
  /\ int_eq_float 1 float_one = true
  /\ int_eq_float 2 float_one = false.
Proof. repeat split; reflexivity. Qed.

(** C10.  The leaf comparison is Python's [==], which crosses types: the
    int 1 against [true], and against the float 1.0, gives no record,
    though the values are of different JSON types. *)
Theorem equal_across_types_unchanged :
  compare_dicts (VInt 1) (VBool true) "" = []
  /\ compare_dicts (VInt 1) (VFloat float_one) "" = []
  /\ VInt 1 <> VBool true
  /\ VInt 1 <> VFloat float_one.
Proof. repeat split; (reflexivity || discriminate). Qed.

(* ================================================================== *)
(** ** The normaliser *)
(* ================================================================== *)

Section NormalizerFacts.
Variable json_loads : string -> outcome value.
Variable xmltodict_parse : string -> outcome value.

(** The tag tells whether there is an object. *)
Lemma normalize_to_object_tag text obj fmt :
  normalize_to_object json_loads xmltodict_parse text = Returns (obj, fmt) ->
  (fmt = "json" /\ is_not_None obj = true)
  \/ (fmt = "xml" /\ is_not_None obj = true)
  \/ (fmt = "text" /\ obj = VNone).
Proof.
  unfold normalize_to_object, try_parse_json, try_parse_xml. simpl.
  destruct (json_loads text) as [j|e]; simpl.
  - destruct (is_not_None j) eqn:Ej.
    + intros [= <- <-]. auto.
    + destruct (xmltodict_parse text) as [x|e]; simpl.
      * destruct (is_not_None x) eqn:Ex; intros [= <- <-]; auto.
      * intros [= <- <-]. auto.
  - destruct (xmltodict_parse text) as [x|e']; simpl.
    + destruct (is_not_None x) eqn:Ex; intros [= <- <-]; auto.
    + intros [= <- <-]. auto.
Qed.

(** C9.  Whatever the two library parsers do with a text, return or
    raise, [try_parse_json], [try_parse_xml] and [normalize_to_object]
    return: a raised exception becomes [None], and the cascade goes on to
    its next branch, down to [(None, "text")]. *)
Theorem normalizer_returns (text : string) :
  let j := match json_loads text with Returns v => v | Raises _ => VNone end in
  let x :=
    match xmltodict_parse text with Returns v => v | Raises _ => VNone end in
  try_parse_json json_loads text = Returns j
  /\ try_parse_xml xmltodict_parse text = Returns x
  /\ normalize_to_object json_loads xmltodict_parse text
     = Returns (if is_not_None j then (j, "json")
                else if is_not_None x then (x, "xml")
                else (VNone, "text")).
Proof.
  cbv zeta.
  unfold normalize_to_object, try_parse_json, try_parse_xml. simpl.
  destruct (json_loads text) as [j|e]; simpl;
    [destruct (is_not_None j) eqn:Ej|];
    destruct (xmltodict_parse text) as [x|e']; simpl;
    repeat split; try reflexivity;
    destruct (is_not_None x); reflexivity.
Qed.

(** C2.  The tag of a text that strict JSON parsing accepts should be
    ["json"].  It is not for the document [null]: when [json.loads]
    returns [None], [normalize_to_object] takes the text for one that is
    not JSON and goes on to the XML parser. *)
Theorem json_null_not_tagged_json (text : string) :
  json_loads text = Returns VNone ->
  exists obj fmt,
    normalize_to_object json_loads xmltodict_parse text = Returns (obj, fmt)
    /\ fmt <> "json".
Proof.
  intros H.
  unfold normalize_to_object, try_parse_json, try_parse_xml. rewrite H. simpl.
  destruct (xmltodict_parse text) as [x|e]; simpl.
  - destruct (is_not_None x).
    + exists x, "xml". split; [reflexivity | discriminate].
    + exists VNone, "text". split; [reflexivity | discriminate].
  - exists VNone, "text". split; [reflexivity | discriminate].
Qed.
End NormalizerFacts.

Example normalize_null :
  normalize_to_object demo_json_loads demo_xmltodict_parse "null"
  = Returns (VNone, "text").
Proof. reflexivity. Qed.

(* ================================================================== *)
(** ** The reports *)
(* ================================================================== *)

Section ReportFacts.
Variable json_loads : string -> outcome value.
Variable xmltodict_parse : string -> outcome value.
Variable json_dumps : value -> nat -> bool -> bool -> string.
Variable py_str : value -> string.
Variable splitlines : string -> list string.
Variable unified_diff :
  list string -> list string -> string -> string -> list string.
Variable make_file : list string -> list string -> string -> string -> string.
Variable name_of : string -> string.
Variable decode_text : string -> outcome string.
Variable encode_text : string -> outcome string.





End ReportFacts.

(* ================================================================== *)
(** ** The statements at concrete inputs *)
(* ================================================================== *)

Lemma change_record_path_string_at_docs :
  wf doc_old = true /\ wf doc_new = true
  /\ In (added "b" (VInt 2)) (compare_dicts doc_old doc_new "")
  /\ exists segs ty,
       located (added "b" (VInt 2)) "" segs doc_old doc_new
       /\ record_get "type" (added "b" (VInt 2)) = Some (VStr ty)
       /\ record_get "path" (added "b" (VInt 2)) =
          Some (VStr (if String.eqb ty "modified" then or_slash (dotted segs)
                      else dotted segs))
       /\ (segs = [] ->
           record_get "path" (added "b" (VInt 2)) = Some (VStr "/")).
Proof.
  split; [reflexivity|]. split; [reflexivity|]. split; [right; now left|].
  apply (change_record_path_string doc_old doc_new);
    [reflexivity | reflexivity | right; now left].
Defined.

Lemma compare_dicts_self_empty_at_doc :
  json_value doc_new = true /\ compare_dicts doc_new doc_new "" = [].
Proof.
  split; [reflexivity|].
  apply (compare_dicts_self_empty doc_new). reflexivity.
Defined.

Lemma compare_dicts_mappings_at_docs :
  distinct_keys (dict_keys [("a", VList [VInt 1]); ("c", VNone)]) = true
  /\ distinct_keys (dict_keys [("a", VList [VInt 2]); ("b", VInt 2)]) = true
  /\ compare_dicts (VDict [("a", VList [VInt 1]); ("c", VNone)])
       (VDict [("a", VList [VInt 2]); ("b", VInt 2)]) "r"
     = [modified "r.a.[0]" (VInt 1) (VInt 2); removed "r.c" VNone;
        added "r.b" (VInt 2)].
Proof.
  split; [reflexivity|]. split; [reflexivity|].
  destruct (compare_dicts_mappings
              [("a", VList [VInt 1]); ("c", VNone)]
              [("a", VList [VInt 2]); ("b", VInt 2)] "r"
              eq_refl eq_refl) as [E _].
  rewrite E. reflexivity.
Defined.

Lemma compare_dicts_mismatch_at_dict_and_list :
  (is_dict (VDict [("a", VInt 1)]) <> is_dict (VList [VInt 1])
   \/ is_list (VDict [("a", VInt 1)]) <> is_list (VList [VInt 1])
   \/ (is_scalar (VDict [("a", VInt 1)]) = true
       /\ is_scalar (VList [VInt 1]) = true
       /\ py_eq (VDict [("a", VInt 1)]) (VList [VInt 1]) = false))
  /\ compare_dicts (VDict [("a", VInt 1)]) (VList [VInt 1]) "x"
     = [modified "x" (VDict [("a", VInt 1)]) (VList [VInt 1])].
Proof.
  split; [left; discriminate|].
  destruct (compare_dicts_mismatch (VDict [("a", VInt 1)]) (VList [VInt 1]) "x")
    as [E _]; [left; discriminate | exact E].
Defined.

Lemma json_null_not_tagged_json_at_null :
  demo_json_loads "null" = Returns VNone
  /\ exists obj fmt,
       normalize_to_object demo_json_loads demo_xmltodict_parse "null"
       = Returns (obj, fmt)
       /\ fmt <> "json".
Proof.
  split; [reflexivity|].
  apply (json_null_not_tagged_json demo_json_loads demo_xmltodict_parse "null").
  reflexivity.
Defined.


(* ================================================================== *)
(** ** The form of the change records *)
(* ================================================================== *)

Lemma emitted_below r path s segs :
  emitted_at r (full_path path (segment_str s)) segs ->
  emitted_at r path (s :: segs).
Proof.
  unfold emitted_at. rewrite extend_path_cons.
  intros [(v & E & _) | [(v & E & _) | (ov & nv & E & H)]].
  - left. exists v. split; [exact E | discriminate].
  - right. left. exists v. split; [exact E | discriminate].
  - right. right. now exists ov, nv.
Qed.

Lemma compare_dicts_emitted old :
  forall new path r,
    In r (compare_dicts old new path) -> exists segs, emitted_at r path segs.
Proof.
  assert (Leaf : forall old new path r,
             is_dict old && is_dict new = false ->
             is_list old && is_list new = false ->
             In r (compare_dicts old new path) ->
             exists segs, emitted_at r path segs).
  { intros o n path r Hd Hl. rewrite (compare_dicts_leaf o n path Hd Hl).
    unfold py_ne. destruct (py_eq o n) eqn:E; simpl; [tauto|].
    intros [<-|[]]. exists []. right. right. now exists o, n. }
  induction old using value_induction; intros new path r;
    try (apply Leaf; reflexivity).
  - destruct new as [| | | | |new_l|]; try (apply Leaf; reflexivity).
    rewrite compare_dicts_items. cbv zeta. rewrite in_app_iff, in_flat_map.
    intros [(i & Hi & Hr) | Hr].
    + apply in_seq in Hi.
      destruct (H (nth i items VNone)) with (2 := Hr) as [segs Hs];
        [apply nth_In; lia|].
      exists (Index i :: segs). now apply emitted_below.
    + destruct (List.length new_l <? List.length items)%nat;
        [| destruct (List.length items <? List.length new_l)%nat;
           [| destruct Hr]];
        apply in_map_iff in Hr; destruct Hr as (i & <- & _);
        exists [Index i].
      * left. eexists. split; [reflexivity | discriminate].
      * right. left. eexists. split; [reflexivity | discriminate].
  - destruct new as [| | | | | |new_d]; try (apply Leaf; reflexivity).
    rewrite compare_dicts_entries, in_app_iff, !in_flat_map.
    intros [([k old_k] & Hin & Hr) | ([k new_k] & Hin & Hr)]; simpl in Hr.
    + destruct (dict_get k new_d) as [new_k|].
      * destruct (H k old_k Hin) with (1 := Hr) as [segs Hs].
        exists (Field k :: segs). now apply emitted_below.
      * destruct Hr as [<-|[]]. exists [Field k]. left.
        eexists. split; [reflexivity | discriminate].
    + destruct (dict_contains k entries); [destruct Hr|].
      destruct Hr as [<-|[]]. exists [Field k]. right. left.
      eexists. split; [reflexivity | discriminate].
Qed.

(** X1.  Whatever the two values and the path, every element of the
    result is one of the three dict literals; and a [modified] record never
    holds two mappings or two sequences, and never two values that Python
    finds equal. *)
Theorem change_record_forms (old new : value) (path : string) (r : value) :
  In r (compare_dicts old new path) ->
  (exists p v, r = removed p v)
  \/ (exists p v, r = added p v)
  \/ (exists p ov nv, r = modified p ov nv
                      /\ is_dict ov && is_dict nv = false
                      /\ is_list ov && is_list nv = false
                      /\ py_eq ov nv = false).
Proof.
  intros Hr. destruct (compare_dicts_emitted old new path r Hr) as [segs Hs].
  destruct Hs as [(v & E & _) | [(v & E & _) | (ov & nv & E & H)]].
  - left. eauto.
  - right. left. eauto.
  - right. right. eauto.
Qed.

Lemma prefix_app p q : String.prefix p (p ++ q) = true.
Proof.
  induction p as [|c p IH]; simpl; [now destruct q|].
  destruct (ascii_dec c c); [exact IH | congruence].
Qed.

Lemma extend_path_under path segs :
  truthy path = true -> segs <> [] ->
  exists rest, extend_path path segs = path ++ "." ++ rest.
Proof.
  intros Hp Hs. destruct segs as [|s segs]; [now destruct Hs|].
  rewrite (extend_path_truthy _ _ Hp).
  change (map segment_str (s :: segs))
    with (segment_str s :: map segment_str segs).
  exists (String.concat "." (segment_str s :: map segment_str segs)).
  reflexivity.
Qed.

(** X2.  A diff started at a non-empty path stays under it: the path
    string of every record is that path, or begins with that path and a
    dot. *)
Theorem change_record_under_path (old new : value) (path : string) (r : value) :
  path <> "" ->
  In r (compare_dicts old new path) ->
  exists p, record_get "path" r = Some (VStr p)
            /\ (p = path \/ String.prefix (path ++ ".") p = true).
Proof.
  intros Hne Hr.
  assert (Hp : truthy path = true) by (destruct path; [now destruct Hne | reflexivity]).
  destruct (compare_dicts_emitted old new path r Hr) as [segs Hs].
  destruct Hs as [(v & -> & Hs) | [(v & -> & Hs) | (ov & nv & -> & _)]].
  - destruct (extend_path_under path segs Hp Hs) as [rest ->].
    eexists. split; [reflexivity|]. right.
    rewrite <- string_app_assoc. apply prefix_app.
  - destruct (extend_path_under path segs Hp Hs) as [rest ->].
    eexists. split; [reflexivity|]. right.
    rewrite <- string_app_assoc. apply prefix_app.
  - eexists. split; [reflexivity|].
    destruct segs as [|s segs].
    + left. simpl. unfold or_slash. now rewrite Hp.
    + right.
      destruct (extend_path_under path (s :: segs) Hp) as [rest E];
        [discriminate|].
      rewrite E. unfold or_slash.
      rewrite truthy_app by exact Hp.
      rewrite <- string_app_assoc. apply prefix_app.
Qed.

(* ================================================================== *)
(** ** An empty diff and Python's equality *)
(* ================================================================== *)

Lemma distinct_keys_NoDup ks : distinct_keys ks = true -> NoDup ks.
Proof.
  induction ks as [|k ks IH]; simpl; [constructor|].
  rewrite andb_true_iff, negb_true_iff. intros [Hk Hks].
  constructor; [|auto].
  intros Hin. apply mem_key_In in Hin. congruence.
Qed.

Lemma flat_map_eq_nil {A B} (f : A -> list B) l :
  flat_map f l = [] -> forall x, In x l -> f x = [].
Proof.
  induction l as [|y l IH]; simpl; [tauto|].
  intros H x [<-|Hx]; apply app_eq_nil in H; [tauto | apply IH; tauto].
Qed.

Lemma py_eq_cons x xs y ys :
  py_eq (VList (x :: xs)) (VList (y :: ys))
  = py_eq x y && py_eq (VList xs) (VList ys).
Proof. reflexivity. Qed.

Lemma py_eq_dicts d e :
  py_eq (VDict d) (VDict e)
  = (List.length d =? List.length e)%nat
    && forallb (fun kv => match dict_get (fst kv) e with
                          | Some w => py_eq (snd kv) w
                          | None => false
                          end) d.
Proof. reflexivity. Qed.

Lemma py_eq_lists xs :
  forall ys,
    py_eq (VList xs) (VList ys) = true <->
    List.length xs = List.length ys
    /\ forall i, i < List.length xs ->
                 py_eq (nth i xs VNone) (nth i ys VNone) = true.
Proof.
  induction xs as [|x xs IH]; intros [|y ys].
  - split; [intros _; split; [reflexivity | simpl; lia] | reflexivity].
  - split; [discriminate | intros [H _]; discriminate].
  - split; [discriminate | intros [H _]; discriminate].
  - rewrite py_eq_cons, andb_true_iff, IH. simpl. split.
    + intros (Hxy & Hlen & Hnth). split; [now f_equal|].
      intros [|i] Hi; [exact Hxy | apply Hnth; lia].
    + intros (Hlen & Hnth). split; [apply (Hnth 0); lia|].
      split; [now injection Hlen|].
      intros i Hi. apply (Hnth (S i)). lia.
Qed.

Lemma compare_dicts_leaf_nil old new path :
  is_dict old && is_dict new = false ->
  is_list old && is_list new = false ->
  compare_dicts old new path = [] <-> py_eq old new = true.
Proof.
  intros Hd Hl. rewrite (compare_dicts_leaf old new path Hd Hl).
  unfold py_ne. destruct (py_eq old new); simpl; split;
    (reflexivity || discriminate).
Qed.

Lemma compare_dicts_nil_iff old :
  forall new path,
    wf old = true -> wf new = true ->
    compare_dicts old new path = [] <-> py_eq old new = true.
Proof.
  induction old using value_induction; intros new path Hwo Hwn;
    try (apply compare_dicts_leaf_nil; reflexivity).
  - (* lists *)
    destruct new as [| | | | |new_l|];
      try (apply compare_dicts_leaf_nil; reflexivity).
    assert (IH : forall i, i < List.length items -> i < List.length new_l ->
                 forall p, compare_dicts (nth i items VNone)
                             (nth i new_l VNone) p = []
                           <-> py_eq (nth i items VNone) (nth i new_l VNone)
                               = true).
    { intros i Hi Hj p. apply H; [now apply nth_In | |].
      - eapply wf_item; [exact Hwo | now apply nth_In].
      - eapply wf_item; [exact Hwn | now apply nth_In]. }
    rewrite compare_dicts_items, py_eq_lists. cbv zeta. split.
    + intros E. apply app_eq_nil in E. destruct E as [Epre Esur].
      assert (Hlen : List.length items = List.length new_l).
      { destruct (List.length new_l <? List.length items)%nat eqn:E1;
          [| destruct (List.length items <? List.length new_l)%nat eqn:E2].
        - apply Nat.ltb_lt in E1.
          apply (f_equal (@List.length value)) in Esur.
          rewrite length_map, length_seq in Esur. simpl in Esur. lia.
        - apply Nat.ltb_lt in E2.
          apply (f_equal (@List.length value)) in Esur.
          rewrite length_map, length_seq in Esur. simpl in Esur. lia.
        - apply Nat.ltb_ge in E1, E2. lia. }
      split; [exact Hlen|]. intros i Hi.
      apply (IH i Hi ltac:(lia) (full_path path (bracket i))).
      apply (flat_map_eq_nil _ _ Epre). apply in_seq. lia.
    + intros [Hlen Hnth].
      rewrite Hlen, Nat.ltb_irrefl, app_nil_r.
      apply flat_map_nil. intros i Hi. apply in_seq in Hi.
      apply IH; [lia | lia | apply Hnth; lia].
  - (* dicts *)
    destruct new as [| | | | | |new_d];
      try (apply compare_dicts_leaf_nil; reflexivity).
    pose proof (distinct_keys_NoDup _ (wf_keys _ Hwo)) as NDo.
    pose proof (distinct_keys_NoDup _ (wf_keys _ Hwn)) as NDn.
    rewrite compare_dicts_entries, py_eq_dicts, andb_true_iff,
      forallb_forall, Nat.eqb_eq.
    split.
    + intros E. apply app_eq_nil in E. destruct E as [Eold Enew].
      assert (Hsub : forall kv, In kv entries ->
                exists w, dict_get (fst kv) new_d = Some w
                          /\ py_eq (snd kv) w = true).
      { intros [k v] Hin. pose proof (flat_map_eq_nil _ _ Eold _ Hin) as E.
        simpl in E |- *. destruct (dict_get k new_d) as [w|] eqn:Hw;
          [|discriminate].
        exists w. split; [reflexivity|].
        apply (H k v Hin w (full_path path k));
          [eapply wf_entry; [exact Hwo | exact Hin]
          | eapply wf_entry; [exact Hwn | eapply dict_get_In; exact Hw]
          | exact E]. }
      split.
      * apply Nat.le_antisymm.
        -- rewrite <- (length_map fst entries), <- (length_map fst new_d).
           apply NoDup_incl_length; [exact NDo|].
           intros k Hk. apply in_map_iff in Hk. destruct Hk as (kv & <- & Hin).
           destruct (Hsub kv Hin) as (w & Hw & _).
           apply dict_get_In in Hw. now apply (in_map fst) in Hw.
        -- rewrite <- (length_map fst entries), <- (length_map fst new_d).
           apply NoDup_incl_length; [exact NDn|].
           intros k Hk. apply in_map_iff in Hk. destruct Hk as (kv & <- & Hin).
           pose proof (flat_map_eq_nil _ _ Enew _ Hin) as E. simpl in E.
           unfold dict_contains in E.
           destruct (dict_get (fst kv) entries) eqn:Hg; [|discriminate].
           apply dict_get_In in Hg. now apply (in_map fst) in Hg.
      * intros kv Hin. destruct (Hsub kv Hin) as (w & -> & Hw). exact Hw.
    + intros [Hlen Hall].
      assert (Hinc : incl (map fst new_d) (map fst entries)).
      { apply NoDup_length_incl; [exact NDo | rewrite !length_map; lia |].
        intros k Hk. apply in_map_iff in Hk. destruct Hk as (kv & <- & Hin).
        specialize (Hall kv Hin).
        destruct (dict_get (fst kv) new_d) eqn:Hg; [|discriminate].
        apply dict_get_In in Hg. now apply (in_map fst) in Hg. }
      rewrite !flat_map_nil; [reflexivity | |].
      * intros [k w] Hin. simpl. unfold dict_contains.
        destruct (dict_get k entries) eqn:Hg; [reflexivity|].
        apply dict_get_None in Hg. exfalso. apply Hg, Hinc.
        now apply (in_map fst) in Hin.
      * intros [k v] Hin. simpl. specialize (Hall (k, v) Hin). simpl in Hall.
        destruct (dict_get k new_d) as [w|] eqn:Hw; [|discriminate].
        apply (H k v Hin w (full_path path k));
          [eapply wf_entry; [exact Hwo | exact Hin]
          | eapply wf_entry; [exact Hwn | eapply dict_get_In; exact Hw]
          | exact Hall].
Qed.

Lemma json_value_wf v : json_value v = true -> wf v = true.
Proof. unfold json_value. rewrite andb_true_iff. tauto. Qed.

(** X3.  For two values as JSON documents give them, the diff is empty
    exactly when Python finds them equal ([old == new]); so any
    difference that [==] sees leaves at least one record, at every path. *)
Theorem compare_dicts_empty_iff_equal (old new : value) (path : string) :
  json_value old = true -> json_value new = true ->
  compare_dicts old new path = [] <-> py_eq old new = true.
Proof.
  intros Ho Hn. apply compare_dicts_nil_iff; now apply json_value_wf.
Qed.

(* ================================================================== *)
(** ** Exchanging the two documents *)
(* ================================================================== *)

Lemma SFeqb_sym f g : SFeqb f g = SFeqb g f.
Proof.
  unfold SFeqb, SFcompare.
  destruct f as [s|s| |s m e], g as [s'|s'| |s' m' e']; try reflexivity;
    try (destruct s; reflexivity); try (destruct s'; reflexivity);
    try (destruct s, s'; reflexivity).
  destruct s, s'; try reflexivity;
    rewrite (Z.compare_antisym e e');
    destruct (e ?= e')%Z; simpl; try reflexivity;
    change (Pos.compare_cont Eq m' m) with (Pos.compare m' m);
    change (Pos.compare_cont Eq m m') with (Pos.compare m m');
    rewrite (Pos.compare_antisym m m');
    destruct (m ?= m')%positive; reflexivity.
Qed.

Lemma py_eq_leaf_sym a b :
  is_dict a && is_dict b = false ->
  is_list a && is_list b = false ->
  py_eq a b = py_eq b a.
Proof.
  destruct a, b; simpl; intros Hd Hl; try reflexivity; try discriminate;
    try apply Z.eqb_sym; try apply SFeqb_sym; try apply String.eqb_sym.
Qed.

Lemma compare_dicts_mirror old :
  forall new path r,
    wf old = true -> wf new = true ->
    In r (compare_dicts old new path) ->
    exists r', mirrored r r' /\ In r' (compare_dicts new old path).
Proof.
  assert (Leaf : forall old new path r,
             is_dict old && is_dict new = false ->
             is_list old && is_list new = false ->
             In r (compare_dicts old new path) ->
             exists r', mirrored r r' /\ In r' (compare_dicts new old path)).
  { intros o n path r Hd Hl.
    rewrite (compare_dicts_leaf o n path Hd Hl).
    rewrite (compare_dicts_leaf n o path)
      by (rewrite andb_comm; assumption).
    unfold py_ne. rewrite (py_eq_leaf_sym n o)
      by (rewrite andb_comm; assumption).
    destruct (py_eq o n); simpl; [tauto|].
    intros [<-|[]]. exists (modified (or_slash path) n o).
    split; [|now left]. right. right. now exists (or_slash path), o, n. }
  induction old using value_induction; intros new path r Hwo Hwn;
    try (apply Leaf; reflexivity).
  - (* lists *)
    destruct new as [| | | | |new_l|]; try (apply Leaf; reflexivity).
    rewrite !compare_dicts_items. cbv zeta.
    rewrite (Nat.min_comm (List.length new_l) (List.length items)).
    rewrite in_app_iff, in_flat_map.
    intros [(i & Hi & Hr) | Hr].
    + pose proof Hi as Hi'. apply in_seq in Hi'.
      destruct (H (nth i items VNone)) with (4 := Hr) as (r' & Hm & Hr');
        [apply nth_In; lia
        | eapply wf_item; [exact Hwo | apply nth_In; lia]
        | eapply wf_item; [exact Hwn | apply nth_In; lia] |].
      exists r'. split; [exact Hm|].
      apply in_or_app. left. apply in_flat_map. now exists i.
    + destruct (List.length new_l <? List.length items)%nat eqn:E1.
      * apply in_map_iff in Hr. destruct Hr as (i & <- & Hi).
        exists (added (full_path path (bracket i)) (nth i items VNone)).
        split; [left; eauto|].
        apply in_or_app. right.
        apply Nat.ltb_lt in E1.
        replace (List.length items <? List.length new_l)%nat with false
          by (symmetry; apply Nat.ltb_ge; lia).
        replace (List.length new_l <? List.length items)%nat with true
          by (symmetry; apply Nat.ltb_lt; lia).
        apply in_map_iff. now exists i.
      * destruct (List.length items <? List.length new_l)%nat eqn:E2;
          [|destruct Hr].
        apply in_map_iff in Hr. destruct Hr as (i & <- & Hi).
        exists (removed (full_path path (bracket i)) (nth i new_l VNone)).
        split; [right; left; eauto|].
        apply in_or_app. right. apply in_map_iff. now exists i.
  - (* dicts *)
    destruct new as [| | | | | |new_d]; try (apply Leaf; reflexivity).
    rewrite !compare_dicts_entries, in_app_iff, !in_flat_map.
    intros [([k old_k] & Hin & Hr) | ([k new_k] & Hin & Hr)]; simpl in Hr.
    + pose proof (dict_get_entry k old_k entries (wf_keys _ Hwo) Hin) as Hget.
      destruct (dict_get k new_d) as [new_k|] eqn:Hnew.
      * destruct (H k old_k Hin new_k (full_path path k) r) as (r' & Hm & Hr');
          [eapply wf_entry; [exact Hwo | exact Hin]
          | eapply wf_entry; [exact Hwn | eapply dict_get_In; exact Hnew]
          | exact Hr |].
        exists r'. split; [exact Hm|].
        apply in_or_app. left. apply in_flat_map.
        exists (k, new_k). split; [now apply dict_get_In|].
        simpl. now rewrite Hget.
      * destruct Hr as [<-|[]].
        exists (added (full_path path k) old_k). split; [left; eauto|].
        apply in_or_app. right. apply in_flat_map.
        exists (k, old_k). split; [exact Hin|].
        simpl. unfold dict_contains. rewrite Hnew. now left.
    + destruct (dict_contains k entries) eqn:Hc; [destruct Hr|].
      destruct Hr as [<-|[]].
      exists (removed (full_path path k) new_k). split; [right; left; eauto|].
      apply in_or_app. left. apply in_flat_map.
      exists (k, new_k). split; [exact Hin|].
      simpl. unfold dict_contains in Hc.
      destruct (dict_get k entries); [discriminate | now left].
Qed.

Lemma mirrored_removed p v r' : mirrored (removed p v) r' -> r' = added p v.
Proof.
  intros [(q & u & E & ->) | [(q & u & E & ->) | (q & a & b & E & ->)]];
    try discriminate.
  now injection E as <- <-.
Qed.

Lemma mirrored_added p v r' : mirrored (added p v) r' -> r' = removed p v.
Proof.
  intros [(q & u & E & ->) | [(q & u & E & ->) | (q & a & b & E & ->)]];
    try discriminate.
  now injection E as <- <-.
Qed.

Lemma mirrored_modified p a b r' :
  mirrored (modified p a b) r' -> r' = modified p b a.
Proof.
  intros [(q & u & E & ->) | [(q & u & E & ->) | (q & c & d & E & ->)]];
    try discriminate.
  now injection E as <- <- <-.
Qed.

(** X4.  Exchanging [old] and [new] gives the same records read in the
    other direction: a [removed] record becomes the [added] record with
    the same path and value and conversely, and a [modified] record has
    its two values exchanged.  (Their order in the list may differ.) *)
Theorem compare_dicts_exchange (old new : value) (path : string) :
  wf old = true -> wf new = true ->
  (forall p v, In (removed p v) (compare_dicts old new path)
               <-> In (added p v) (compare_dicts new old path))
  /\ (forall p v, In (added p v) (compare_dicts old new path)
                  <-> In (removed p v) (compare_dicts new old path))
  /\ (forall p a b, In (modified p a b) (compare_dicts old new path)
                    <-> In (modified p b a) (compare_dicts new old path)).
Proof.
  intros Ho Hn.
  assert (R : forall o n, wf o = true -> wf n = true ->
              forall p v, In (removed p v) (compare_dicts o n path) ->
                          In (added p v) (compare_dicts n o path)).
  { intros o n Wo Wn p v Hr.
    destruct (compare_dicts_mirror o n path _ Wo Wn Hr) as (r' & Hm & Hr').
    now rewrite <- (mirrored_removed _ _ _ Hm). }
  assert (A : forall o n, wf o = true -> wf n = true ->
              forall p v, In (added p v) (compare_dicts o n path) ->
                          In (removed p v) (compare_dicts n o path)).
  { intros o n Wo Wn p v Hr.
    destruct (compare_dicts_mirror o n path _ Wo Wn Hr) as (r' & Hm & Hr').
    now rewrite <- (mirrored_added _ _ _ Hm). }
  assert (M : forall o n, wf o = true -> wf n = true ->
              forall p a b, In (modified p a b) (compare_dicts o n path) ->
                            In (modified p b a) (compare_dicts n o path)).
  { intros o n Wo Wn p a b Hr.
    destruct (compare_dicts_mirror o n path _ Wo Wn Hr) as (r' & Hm & Hr').
    now rewrite <- (mirrored_modified _ _ _ _ Hm). }
  repeat split; intros; auto.
Qed.

(* ================================================================== *)
(** ** Documents that grow or shrink at the end *)
(* ================================================================== *)

Lemma dict_get_app k d e :
  dict_get k (d ++ e)%list =
  match dict_get k d with Some v => Some v | None => dict_get k e end.
Proof.
  induction d as [|[k' v'] d IH]; simpl; [reflexivity|].
  now destruct (String.eqb k k').
Qed.

Lemma distinct_keys_app (l1 l2 : list string) :
  distinct_keys (l1 ++ l2)%list = true ->
  distinct_keys l1 = true
  /\ forall k, In k l2 -> ~ In k l1.
Proof.
  induction l1 as [|k1 l1 IH]; simpl; [intros _; split; [reflexivity | tauto]|].
  rewrite !andb_true_iff, !negb_true_iff. intros [Hk H].
  destruct (IH H) as [Hd Hsep]. split.
  - split; [|exact Hd].
    destruct (mem_key k1 l1) eqn:E; [|reflexivity].
    apply mem_key_In in E.
    assert (mem_key k1 (l1 ++ l2)%list = true)
      by (apply mem_key_In, in_or_app; now left).
    congruence.
  - intros k Hk2 [<-|Hk1]; [|exact (Hsep k Hk2 Hk1)].
    assert (mem_key k1 (l1 ++ l2)%list = true)
      by (apply mem_key_In, in_or_app; now right).
    congruence.
Qed.

(** X5.  Elements appended to a sequence of JSON values give exactly one
    [added] record each, at their indices in ascending order, and nothing
    else; dropping them again gives the [removed] records of the same
    indices and values. *)
Theorem compare_dicts_appended (old_l extra : list value) (path : string) :
  json_value (VList old_l) = true ->
  compare_dicts (VList old_l) (VList (old_l ++ extra)) path
  = map (fun i => added (full_path path (bracket i))
                    (nth (i - List.length old_l) extra VNone))
      (seq (List.length old_l) (List.length extra))
  /\ compare_dicts (VList (old_l ++ extra)) (VList old_l) path
     = map (fun i => removed (full_path path (bracket i))
                       (nth (i - List.length old_l) extra VNone))
         (seq (List.length old_l) (List.length extra)).
Proof.
  intros Hj.
  assert (Hsame : forall p i, i < List.length old_l ->
            compare_dicts (nth i old_l VNone) (nth i old_l VNone) p = []).
  { intros p i Hi. apply compare_dicts_same.
    apply (json_value_item _ old_l Hj). now apply nth_In. }
  assert (Hlen : List.length (old_l ++ extra)
                 = List.length old_l + List.length extra)
    by apply length_app.
  split; rewrite compare_dicts_items; cbv zeta; rewrite Hlen.
  - replace (Nat.min (List.length old_l)
               (List.length old_l + List.length extra))
      with (List.length old_l) by lia.
    rewrite flat_map_nil.
    + simpl.
      replace (List.length old_l + List.length extra <? List.length old_l)%nat
        with false by (symmetry; apply Nat.ltb_ge; lia).
      replace (List.length old_l + List.length extra - List.length old_l)
        with (List.length extra) by lia.
      destruct (List.length old_l <? List.length old_l + List.length extra)%nat
        eqn:E.
      * apply map_ext_in. intros i Hi. apply in_seq in Hi.
        now rewrite app_nth2 by lia.
      * apply Nat.ltb_ge in E.
        replace (List.length extra) with 0 by lia. reflexivity.
    + intros i Hi. apply in_seq in Hi.
      rewrite app_nth1 by lia. apply Hsame. lia.
  - replace (Nat.min (List.length old_l + List.length extra)
               (List.length old_l))
      with (List.length old_l) by lia.
    rewrite flat_map_nil.
    + simpl.
      replace (List.length old_l + List.length extra - List.length old_l)
        with (List.length extra) by lia.
      destruct (List.length old_l <? List.length old_l + List.length extra)%nat
        eqn:E.
      * apply map_ext_in. intros i Hi. apply in_seq in Hi.
        now rewrite app_nth2 by lia.
      * apply Nat.ltb_ge in E.
        replace (List.length old_l + List.length extra <? List.length old_l)%nat
          with false by (symmetry; apply Nat.ltb_ge; lia).
        replace (List.length extra) with 0 by lia. reflexivity.
    + intros i Hi. apply in_seq in Hi.
      rewrite app_nth1 by lia. apply Hsame. lia.
Qed.

Lemma flat_map_added_fresh d path l :
  (forall k v, In (k, v) l -> dict_get k d = None) ->
  flat_map (fun kv => if dict_contains (fst kv) d then []
                      else [added (full_path path (fst kv)) (snd kv)]) l
  = map (fun kv => added (full_path path (fst kv)) (snd kv)) l.
Proof.
  induction l as [|[k v] l IH]; intros Hl; [reflexivity|].
  simpl. unfold dict_contains at 1. rewrite (Hl k v (or_introl eq_refl)).
  simpl. f_equal. apply IH. intros k0 v0 H0. apply (Hl k0 v0). now right.
Qed.

Lemma flat_map_removed_fresh (compare : value -> value -> string -> list value)
    d path l :
  (forall k v, In (k, v) l -> dict_get k d = None) ->
  flat_map (fun kv => match dict_get (fst kv) d with
                      | None => [removed (full_path path (fst kv)) (snd kv)]
                      | Some new_k =>
                          compare (snd kv) new_k (full_path path (fst kv))
                      end) l
  = map (fun kv => removed (full_path path (fst kv)) (snd kv)) l.
Proof.
  induction l as [|[k v] l IH]; intros Hl; [reflexivity|].
  simpl. rewrite (Hl k v (or_introl eq_refl)).
  simpl. f_equal. apply IH. intros k0 v0 H0. apply (Hl k0 v0). now right.
Qed.

(** X6.  Entries added after those of a mapping of JSON values give
    exactly one [added] record each, in their order, and nothing else;
    dropping them again gives the [removed] records of the same keys and
    values. *)
Theorem compare_dicts_extended (d extra : list (string * value))
    (path : string) :
  json_value (VDict d) = true ->
  distinct_keys (dict_keys (d ++ extra)) = true ->
  compare_dicts (VDict d) (VDict (d ++ extra)) path
  = map (fun kv => added (full_path path (fst kv)) (snd kv)) extra
  /\ compare_dicts (VDict (d ++ extra)) (VDict d) path
     = map (fun kv => removed (full_path path (fst kv)) (snd kv)) extra.
Proof.
  intros Hj Hk. unfold dict_keys in Hk. rewrite map_app in Hk.
  destruct (distinct_keys_app _ _ Hk) as [Hd Hsep].
  assert (Hin_d : forall k v, In (k, v) d ->
            dict_get k d = Some v /\ forall p, compare_dicts v v p = []).
  { intros k v Hin. split; [now apply dict_get_entry|].
    intros p. apply compare_dicts_same.
    now apply (json_value_entry k v d). }
  assert (Hin_e : forall k v, In (k, v) extra -> dict_get k d = None).
  { intros k v Hin. apply dict_get_None. apply Hsep.
    now apply (in_map fst) in Hin. }
  split; rewrite compare_dicts_entries.
  - rewrite flat_map_app, (flat_map_nil _ d), (flat_map_nil _ d).
    + simpl. now apply flat_map_added_fresh.
    + intros [k v] Hin. simpl. now rewrite (dict_contains_true k v).
    + intros [k v] Hin. simpl. rewrite dict_get_app.
      destruct (Hin_d k v Hin) as [-> Hs]. apply Hs.
  - rewrite flat_map_app, (flat_map_nil _ d), (flat_map_nil _ d).
    + simpl. rewrite app_nil_r. now apply flat_map_removed_fresh.
    + intros [k v] Hin. simpl. unfold dict_contains. rewrite dict_get_app.
      now destruct (Hin_d k v Hin) as [-> _].
    + intros [k v] Hin. simpl.
      destruct (Hin_d k v Hin) as [-> Hs]. apply Hs.
Qed.

(* ================================================================== *)
(** ** The order of the keys *)
(* ================================================================== *)

Lemma NoDup_distinct_keys ks : NoDup ks -> distinct_keys ks = true.
Proof.
  induction 1 as [|k ks Hk _ IH]; simpl; [reflexivity|].
  rewrite IH, andb_true_r. apply negb_true_iff.
  destruct (mem_key k ks) eqn:E; [|reflexivity].
  apply mem_key_In in E. contradiction.
Qed.

Lemma dict_get_permuted k d d' :
  distinct_keys (dict_keys d) = true -> Permutation d d' ->
  dict_get k d = dict_get k d'.
Proof.
  intros Hd Hp.
  assert (Hd' : distinct_keys (dict_keys d') = true).
  { apply NoDup_distinct_keys.
    apply (Permutation_NoDup (Permutation_map fst Hp)).
    now apply distinct_keys_NoDup. }
  destruct (dict_get k d) as [v|] eqn:E.
  - symmetry. apply dict_get_entry; [exact Hd'|].
    apply (Permutation_in _ Hp). now apply dict_get_In.
  - symmetry. apply dict_get_None. apply dict_get_None in E.
    intros Hin. apply E.
    apply (Permutation_in _ (Permutation_sym (Permutation_map fst Hp))).
    exact Hin.
Qed.

(** X7.  The order in which two mappings hold their keys decides only the
    order of the records: with the entries of either mapping in another
    order, the result is a permutation of the same records. *)
Theorem compare_dicts_key_order (d d' e e' : list (string * value))
    (path : string) :
  distinct_keys (dict_keys d) = true ->
  distinct_keys (dict_keys e) = true ->
  Permutation d d' -> Permutation e e' ->
  Permutation (compare_dicts (VDict d) (VDict e) path)
    (compare_dicts (VDict d') (VDict e') path).
Proof.
  intros Hd He Pd Pe. rewrite !compare_dicts_entries.
  apply Permutation_app.
  - rewrite (flat_map_ext
               (fun kv => match dict_get (fst kv) e' with
                          | None => [removed (full_path path (fst kv)) (snd kv)]
                          | Some new_k =>
                              compare_dicts (snd kv) new_k
                                (full_path path (fst kv))
                          end)
               (fun kv => match dict_get (fst kv) e with
                          | None => [removed (full_path path (fst kv)) (snd kv)]
                          | Some new_k =>
                              compare_dicts (snd kv) new_k
                                (full_path path (fst kv))
                          end)).
    + now apply Permutation_flat_map.
    + intros kv. now rewrite (dict_get_permuted (fst kv) e e' He Pe).
  - rewrite (flat_map_ext
               (fun kv => if dict_contains (fst kv) d' then []
                          else [added (full_path path (fst kv)) (snd kv)])
               (fun kv => if dict_contains (fst kv) d then []
                          else [added (full_path path (fst kv)) (snd kv)])).
    + now apply Permutation_flat_map.
    + intros kv. unfold dict_contains.
      now rewrite (dict_get_permuted (fst kv) d d' Hd Pd).
Qed.

(* ================================================================== *)
(** ** More on the normaliser and the reports *)
(* ================================================================== *)

Section RunFacts.
Variable json_loads : string -> outcome value.
Variable xmltodict_parse : string -> outcome value.
Variable json_dumps : value -> nat -> bool -> bool -> string.
Variable py_str : value -> string.
Variable splitlines : string -> list string.
Variable unified_diff :
  list string -> list string -> string -> string -> list string.
Variable make_file : list string -> list string -> string -> string -> string.
Variable name_of : string -> string.
Variable decode_text : string -> outcome string.
Variable encode_text : string -> outcome string.


(** X8.  The result of [normalize_to_object] always has one of the tags
    ["json"], ["xml"], ["text"]; the object is [None] exactly under the
    tag ["text"]; under ["json"] it is what [json.loads] returned, and
    under ["xml"] what [xmltodict.parse] returned. *)
Theorem normalize_to_object_tagged (text : string) :
  exists obj fmt,
    normalize_to_object json_loads xmltodict_parse text = Returns (obj, fmt)
    /\ (fmt = "json" \/ fmt = "xml" \/ fmt = "text")
    /\ (obj = VNone <-> fmt = "text")
    /\ (fmt = "json" -> json_loads text = Returns obj)
    /\ (fmt = "xml" -> xmltodict_parse text = Returns obj).
Proof.
  unfold normalize_to_object, try_parse_json, try_parse_xml. simpl.
  destruct (json_loads text) as [j|e]; simpl;
    [destruct (is_not_None j) eqn:Ej|].
  - exists j, "json". repeat split; auto; try discriminate.
    intros ->. discriminate.
  - assert (j = VNone) as -> by (destruct j; (reflexivity || discriminate)).
    destruct (xmltodict_parse text) as [x|e']; simpl;
      [destruct (is_not_None x) eqn:Ex|].
    + exists x, "xml". repeat split; auto; try discriminate.
      intros ->. discriminate.
    + exists VNone, "text". repeat split; auto; discriminate.
    + exists VNone, "text". repeat split; auto; discriminate.
  - destruct (xmltodict_parse text) as [x|e']; simpl;
      [destruct (is_not_None x) eqn:Ex|].
    + exists x, "xml". repeat split; auto; try discriminate.
      intros ->. discriminate.
    + exists VNone, "text". repeat split; auto; discriminate.
    + exists VNone, "text". repeat split; auto; discriminate.
Qed.





Lemma keeps_then {A B} (c : io A) (k : A -> io B) :
  keeps_other_files c -> (forall a, keeps_other_files (k a)) ->
  keeps_other_files (then_ c k).
Proof.
  intros Hc Hk w w' o p. cbn [then_ io_seq].
  destruct (c w) as [[a|e] w1] eqn:E; intros Hrun Pt Ph Pj.
  - rewrite (Hk a w1 w' o p Hrun Pt Ph Pj). exact (Hc w w1 _ p E Pt Ph Pj).
  - injection Hrun as _ <-. exact (Hc w w1 _ p E Pt Ph Pj).
Qed.

Lemma keeps_read p : keeps_other_files (read_text decode_text p).
Proof.
  intros w w' o q. unfold read_text.
  destruct (file_text p (files w)); [|destruct (mem_key p (dirs w))];
    intros [= _ <-]; reflexivity.
Qed.

Lemma keeps_pure_call {A} (c : outcome A) : keeps_other_files (pure_call c).
Proof. intros w w' o q [= _ <-]. reflexivity. Qed.

Lemma keeps_mkdir d : keeps_other_files (mkdir_exist_ok d).
Proof.
  intros w w' o q. unfold mkdir_exist_ok.
  destruct (file_text d (files w)); [|destruct (mem_key d (dirs w))];
    intros [= _ <-]; reflexivity.
Qed.

Lemma keeps_print line : keeps_other_files (print line).
Proof. intros w w' o q [= _ <-]. reflexivity. Qed.

Lemma keeps_write p t :
  p = "diff_output/diff_report.txt" \/ p = "diff_output/diff_report.html"
  \/ p = "diff_output/diff_report.json" ->
  keeps_other_files (write_text encode_text p t).
Proof.
  intros Hp w w' o q. unfold write_text.
  destruct (mem_key p (dirs w)); [intros [= _ <-]; reflexivity|].
  destruct (encode_text t); intros [= _ <-] Pt Ph Pj; simpl;
    (destruct (String.eqb_spec q p) as [->|_]; [|reflexivity]);
    destruct Hp as [-> | [-> | ->]]; contradiction.
Qed.

Lemma compare_files_keeps old_file new_file :
  keeps_other_files
    (compare_files json_loads xmltodict_parse json_dumps py_str splitlines
       unified_diff make_file name_of decode_text encode_text
       old_file new_file).
Proof.
  unfold compare_files.
  apply keeps_then; [apply keeps_read | intros raw_old].
  apply keeps_then; [apply keeps_read | intros raw_new].
  apply keeps_then; [apply keeps_pure_call | intros [obj_old fmt_old]].
  apply keeps_then; [apply keeps_pure_call | intros [obj_new fmt_new]].
  destruct (is_not_None obj_old && is_not_None obj_new
            && String.eqb fmt_old fmt_new);
    (apply keeps_then; [apply keeps_mkdir | intros _]);
    (apply keeps_then; [apply keeps_write; auto | intros _]);
    (apply keeps_then; [apply keeps_write; auto | intros _]);
    (apply keeps_then; [apply keeps_write; auto | intros _]);
    (apply keeps_then; [apply keeps_print | intros _]);
    apply keeps_print.
Qed.

(** X12.  A run writes the three reports and nothing else: whatever the
    outcome, every other file has the text it had before, the two input
    files included when they are not named like a report. *)
Theorem compare_files_keeps_other_files (old_file new_file : string)
    (w w' : world) (o : outcome unit) (p : string) :
  compare_files json_loads xmltodict_parse json_dumps py_str splitlines
    unified_diff make_file name_of decode_text encode_text
    old_file new_file w = (o, w') ->
  p <> "diff_output/diff_report.txt" ->
  p <> "diff_output/diff_report.html" ->
  p <> "diff_output/diff_report.json" ->
  file_text p (files w') = file_text p (files w).
Proof. apply compare_files_keeps. Qed.
End RunFacts.

Section EntryFacts.
Variable json_loads : string -> outcome value.
Variable xmltodict_parse : string -> outcome value.
Variable json_dumps : value -> nat -> bool -> bool -> string.
Variable splitlines : string -> list string.
Variable unified_diff :
  list string -> list string -> string -> string -> list string.
Variable make_file : list string -> list string -> string -> string -> string.
Variable name_of : string -> string.
Variable decode_text : string -> outcome string.
Variable encode_text : string -> outcome string.

Lemma pretty_text_any_str (str1 str2 : value -> string) obj fmt text :
  normalize_to_object json_loads xmltodict_parse text = Returns (obj, fmt) ->
  is_not_None obj = true ->
  pretty_text_from_obj json_dumps str1 obj fmt
  = pretty_text_from_obj json_dumps str2 obj fmt.
Proof.
  intros Hn Ho.
  destruct (normalize_to_object_tag _ _ _ _ _ Hn)
    as [[-> _] | [[-> _] | [_ ->]]]; (reflexivity || discriminate).
Qed.

(** X13.  The [str(obj)] branch of [pretty_text_from_obj] is never taken
    in a run of [compare_files]: an object is pretty-printed only under
    the tags ["json"] and ["xml"], so the run is the same whatever [str]
    would give. *)
Theorem compare_files_never_uses_str (str1 str2 : value -> string)
    (old_file new_file : string) (w : world) :
  compare_files json_loads xmltodict_parse json_dumps str1 splitlines
    unified_diff make_file name_of decode_text encode_text old_file new_file w
  = compare_files json_loads xmltodict_parse json_dumps str2 splitlines
      unified_diff make_file name_of decode_text encode_text
      old_file new_file w.
Proof.
  unfold compare_files. cbn [then_ io_seq]. unfold read_text, pure_call.
  destruct (file_text old_file (files w)) as [bytes_old|];
    [|destruct (mem_key old_file (dirs w)); reflexivity].
  destruct (decode_text bytes_old) as [raw_old|]; [|reflexivity].
  destruct (file_text new_file (files w)) as [bytes_new|];
    [|destruct (mem_key new_file (dirs w)); reflexivity].
  destruct (decode_text bytes_new) as [raw_new|]; [|reflexivity].
  destruct (normalize_to_object json_loads xmltodict_parse raw_old)
    as [[oo fo]|e] eqn:Eo; [|reflexivity].
  destruct (normalize_to_object json_loads xmltodict_parse raw_new)
    as [[on fn]|e] eqn:En; [|reflexivity].
  destruct (is_not_None oo) eqn:No;
    [rewrite (pretty_text_any_str str1 str2 oo fo raw_old Eo No)|];
    (destruct (is_not_None on) eqn:Nn;
     [rewrite (pretty_text_any_str str1 str2 on fn raw_new En Nn)|]);
    reflexivity.
Qed.

Variable py_str : value -> string.

(** X14.  With a wrong number of arguments, or when a path names neither
    a file nor a directory, the entry point prints one line and ends with
    [SystemExit] of status 1; no file or directory is touched. *)
Theorem main_rejects (argv : list string) (w : world) :
  List.length argv <> 3
  \/ (file_text (nth 1 argv "") (files w) = None
      /\ mem_key (nth 1 argv "") (dirs w) = false)
  \/ (file_text (nth 2 argv "") (files w) = None
      /\ mem_key (nth 2 argv "") (dirs w) = false) ->
  exists line,
    main json_loads xmltodict_parse json_dumps py_str splitlines
      unified_diff make_file name_of decode_text encode_text argv w
    = (Raises (SystemExit 1),
       mkWorld (files w) (dirs w) (stdout w ++ [line])%list)
    /\ line =
       if (List.length argv =? 3)%nat
       then "❌ Error: One or both files not found."
       else "Usage: python scripts/compare_responses.py <old_file> <new_file>".
Proof.
  intros H. unfold main.
  destruct (List.length argv =? 3)%nat eqn:E.
  - apply Nat.eqb_eq in E.
    eexists. split; [|reflexivity].
    cbv zeta. cbn [then_ io_seq negb]. unfold path_exists.
    destruct H as [H | [[Hf Hd] | [Hf Hd]]]; [contradiction | |].
    + rewrite Hf, Hd. reflexivity.
    + rewrite Hf, Hd.
      destruct (match file_text (nth 1 argv "") (files w) with
                | Some _ => true
                | None => mem_key (nth 1 argv "") (dirs w)
                end); reflexivity.
  - eexists. split; reflexivity.
Qed.

End EntryFacts.

(* ================================================================== *)
(** ** Path strings at one level *)
(* ================================================================== *)

Lemma string_app_inv_head (p a b : string) : p ++ a = p ++ b -> a = b.
Proof.
  induction p as [|c p IH]; simpl; [auto|].
  intros [= H]. auto.
Qed.

Lemma list_ascii_app (s t : string) :
  list_ascii_of_string (s ++ t)
  = (list_ascii_of_string s ++ list_ascii_of_string t)%list.
Proof. induction s as [|c s IH]; simpl; [reflexivity | now rewrite IH]. Qed.

Lemma string_app_inv_tail (s t x : string) : s ++ x = t ++ x -> s = t.
Proof.
  intros H. apply (f_equal list_ascii_of_string) in H.
  rewrite !list_ascii_app in H. apply app_inv_tail in H.
  rewrite <- (string_of_list_ascii_of_string s),
          <- (string_of_list_ascii_of_string t).
  now rewrite H.
Qed.

Lemma to_uint_not_Nil n : Nat.to_uint n <> Decimal.Nil.
Proof.
  rewrite <- (DecimalNat.Unsigned.of_to n) at 1.
  rewrite DecimalNat.Unsigned.to_of. unfold Decimal.unorm.
  destruct (Decimal.nzhead (Nat.to_uint n)); discriminate.
Qed.

Lemma bracket_inj i j : bracket i = bracket j -> i = j.
Proof.
  unfold bracket. intros H.
  apply string_app_inv_head, string_app_inv_tail in H.
  apply DecimalNat.Unsigned.to_uint_inj.
  apply (f_equal NilZero.uint_of_string) in H.
  rewrite !NilZero.usu in H by apply to_uint_not_Nil.
  now injection H.
Qed.

(* ================================================================== *)
(** ** Path strings read back *)
(* ================================================================== *)

Lemma has_dot_app a b : has_dot (a ++ b) = has_dot a || has_dot b.
Proof.
  induction a as [|c a IH]; simpl; [reflexivity|].
  now rewrite IH, orb_assoc.
Qed.

Lemma split_dots_simple x : has_dot x = false -> split_dots x = [x].
Proof.
  induction x as [|c x IH]; simpl; [reflexivity|].
  rewrite orb_false_iff. intros [-> Hx]. now rewrite (IH Hx).
Qed.

Lemma split_dots_app x t :
  has_dot x = false -> split_dots (x ++ "." ++ t) = x :: split_dots t.
Proof.
  induction x as [|c x IH]; simpl; [reflexivity|].
  rewrite orb_false_iff. intros [-> Hx].
  change (x ++ String "." t) with (x ++ "." ++ t). now rewrite (IH Hx).
Qed.

Lemma split_dots_concat strs :
  strs <> [] -> Forall (fun x => has_dot x = false) strs ->
  split_dots (String.concat "." strs) = strs.
Proof.
  induction strs as [|x strs IH]; intros Hne Hall; [now destruct Hne|].
  inversion Hall as [|? ? Hx Hrest]; subst.
  destruct strs as [|y ys].
  - simpl. now apply split_dots_simple.
  - change (String.concat "." (x :: y :: ys))
      with (x ++ "." ++ String.concat "." (y :: ys)).
    rewrite (split_dots_app _ _ Hx). f_equal. apply IH; [discriminate | exact Hrest].
Qed.

Lemma digits_no_dot d : has_dot (NilEmpty.string_of_uint d) = false.
Proof. induction d; simpl; auto. Qed.

Lemma has_dot_bracket i : has_dot (bracket i) = false.
Proof.
  unfold bracket. rewrite !has_dot_app.
  assert (H : has_dot (NilZero.string_of_uint (Nat.to_uint i)) = false).
  { destruct (Nat.to_uint i); try apply digits_no_dot. reflexivity. }
  now rewrite H.
Qed.

Lemma unbracket_bracket i : unbracket (bracket i) = Some i.
Proof.
  unfold bracket.
  change ("[" ++ NilZero.string_of_uint (Nat.to_uint i) ++ "]")
    with (String "[" (NilZero.string_of_uint (Nat.to_uint i) ++ "]")).
  unfold unbracket.
  rewrite list_ascii_app, rev_app_distr. simpl rev at 1. cbn [app].
  rewrite rev_involutive, string_of_list_ascii_of_string.
  rewrite NilZero.usu by apply to_uint_not_Nil.
  simpl. now rewrite DecimalNat.Unsigned.of_to.
Qed.

Lemma parse_segment_str s :
  plain_segment s = true -> parse_segment (segment_str s) = s.
Proof.
  destruct s as [k|i]; simpl; unfold parse_segment.
  - unfold plain_key. rewrite !andb_true_iff. intros [_ H].
    now destruct (unbracket k).
  - intros _. now rewrite unbracket_bracket.
Qed.

Lemma plain_segment_no_dot s :
  plain_segment s = true -> has_dot (segment_str s) = false.
Proof.
  destruct s as [k|i]; simpl; [|intros _; apply has_dot_bracket].
  unfold plain_key, simple_key. rewrite !andb_true_iff, !negb_true_iff. tauto.
Qed.

Lemma plain_segment_truthy s :
  plain_segment s = true -> truthy (segment_str s) = true.
Proof.
  destruct s as [k|i]; simpl; [|intros _; reflexivity].
  unfold plain_key, simple_key. rewrite !andb_true_iff, !negb_true_iff.
  intros [[[H _] _] _]. now destruct k.
Qed.

Lemma truthy_concat x xs :
  truthy x = true -> truthy (String.concat "." (x :: xs)) = true.
Proof.
  intros H. destruct xs as [|y ys]; [exact H|].
  change (String.concat "." (x :: y :: ys))
    with (x ++ "." ++ String.concat "." (y :: ys)).
  now apply truthy_app.
Qed.

Lemma render_plain segs :
  segs <> [] -> forallb plain_segment segs = true ->
  render segs = String.concat "." (map segment_str segs)
  /\ truthy (render segs) = true.
Proof.
  intros Hne Hp. destruct segs as [|s segs]; [now destruct Hne|].
  simpl in Hp. apply andb_true_iff in Hp. destruct Hp as [Hs _].
  pose proof (plain_segment_truthy s Hs) as Ht.
  assert (E : render (s :: segs)
              = String.concat "." (map segment_str (s :: segs))).
  { rewrite render_dotted. unfold dotted.
    destruct s as [[|c k]|i]; [discriminate | reflexivity | reflexivity]. }
  split; [exact E|]. rewrite E. now apply truthy_concat.
Qed.

(** A path of plain segments is read back from its string. *)
Lemma parse_render segs :
  segs <> [] -> forallb plain_segment segs = true ->
  parse_path (render segs) = segs.
Proof.
  intros Hne Hp. destruct (render_plain segs Hne Hp) as [E _].
  assert (Hsplit : split_dots (render segs) = map segment_str segs).
  { rewrite E. apply split_dots_concat.
    - destruct segs; [now destruct Hne | discriminate].
    - apply Forall_forall. intros x Hx. apply in_map_iff in Hx.
      destruct Hx as (s & <- & Hs). apply plain_segment_no_dot.
      rewrite forallb_forall in Hp. now apply Hp. }
  unfold parse_path.
  destruct (String.eqb_spec (render segs) "/") as [Eq|_].
  - exfalso. rewrite Eq in Hsplit. simpl in Hsplit.
    destruct segs as [|s [|s' segs]]; try discriminate.
    simpl in Hp. rewrite andb_true_r in Hp.
    injection Hsplit as Hs. destruct s as [k|i].
    + simpl in Hs. subst k. discriminate.
    + discriminate.
  - rewrite Hsplit, map_map.
    rewrite <- (map_id segs) at 2. apply map_ext_in.
    intros s Hs. apply parse_segment_str.
    rewrite forallb_forall in Hp. now apply Hp.
Qed.

(** A path that resolves in a document with plain keys is made of plain
    segments. *)
Lemma resolve_plain segs :
  forall doc v,
    plain_keys doc = true -> resolve segs doc = Some v ->
    forallb plain_segment segs = true.
Proof.
  induction segs as [|s segs IH]; intros doc v Hd Hr; [reflexivity|].
  destruct s as [k|i]; destruct doc as [| | | | |items|entries];
    simpl in Hr; try discriminate.
  - destruct (dict_get k entries) as [x|] eqn:Hk; [|discriminate].
    apply dict_get_In in Hk. simpl in Hd. rewrite forallb_forall in Hd.
    specialize (Hd _ Hk). simpl in Hd. apply andb_true_iff in Hd.
    destruct Hd as [Hkey Hx]. simpl. rewrite Hkey. exact (IH x v Hx Hr).
  - destruct (nth_error items i) as [x|] eqn:Hi; [|discriminate].
    apply nth_error_In in Hi. simpl in Hd. rewrite forallb_forall in Hd.
    simpl. exact (IH x v (Hd _ Hi) Hr).
Qed.

Lemma resolve_rendered segs doc v :
  segs <> [] -> plain_keys doc = true -> resolve segs doc = Some v ->
  resolve_path (render segs) doc = Some v
  /\ or_slash (render segs) = render segs.
Proof.
  intros Hne Hd Hr. pose proof (resolve_plain segs doc v Hd Hr) as Hp.
  unfold resolve_path. rewrite (parse_render segs Hne Hp). split; [exact Hr|].
  unfold or_slash. now rewrite (proj2 (render_plain segs Hne Hp)).
Qed.

(** C1, as the script does it.  When every key of the two documents is
    plain (not empty, without a dot, not [/] and not of the form
    [[digits]]), the path string of every change record that
    [compare_dicts old new ""] emits, read back into segments ([/] the
    root, the pieces between dots, [[i]] an index), resolves to the
    recorded values: in [old] to the ["old"] value of a [removed] or
    [modified] record, in [new] to the ["new"] value of an [added] or
    [modified] record. *)
Theorem change_record_resolves (old new r : value) :
  wf old = true -> wf new = true ->
  plain_keys old = true -> plain_keys new = true ->
  In r (compare_dicts old new "") ->
  (exists p ov, r = removed p ov /\ resolve_path p old = Some ov)
  \/ (exists p nv, r = added p nv /\ resolve_path p new = Some nv)
  \/ (exists p ov nv, r = modified p ov nv
                      /\ resolve_path p old = Some ov
                      /\ resolve_path p new = Some nv).
Proof.
  intros Wo Wn Po Pn Hr.
  destruct (compare_dicts_located old new "" r Wo Wn Hr) as [segs Hs].
  change (extend_path "" segs) with (render segs) in Hs.
  destruct Hs as [(ov & E & R & Hne) | [(nv & E & R & Hne) | (ov & nv & E & Ro & Rn)]].
  - left. exists (render segs), ov. split; [exact E|].
    apply (resolve_rendered segs old ov Hne Po R).
  - right. left. exists (render segs), nv. split; [exact E|].
    apply (resolve_rendered segs new nv Hne Pn R).
  - right. right. destruct segs as [|s segs].
    + exists "/", ov, nv. split; [exact E|]. split; [exact Ro | exact Rn].
    + assert (Hne : s :: segs <> []) by discriminate.
      destruct (resolve_rendered _ old ov Hne Po Ro) as [Qo Eq].
      destruct (resolve_rendered _ new nv Hne Pn Rn) as [Qn _].
      change (extend_path "" (s :: segs)) with (render (s :: segs)) in E.
      rewrite Eq in E.
      exists (render (s :: segs)), ov, nv. auto.
Qed.

(** C1, as stated, fails for keys that are not plain.  With a key that
    holds a dot the path string [a.b] leads to another value; under an
    empty key the path string [a] leads nowhere; the key [/] is taken for
    the root and the key [[0]] for an index. *)
Lemma path_resolves_elsewhere :
  (let old := VDict [("a", VDict [("b", VInt 5)]); ("a.b", VInt 1)] in
   let new := VDict [("a", VDict [("b", VInt 5)]); ("a.b", VInt 2)] in
   compare_dicts old new "" = [modified "a.b" (VInt 1) (VInt 2)]
   /\ resolve_path "a.b" old = Some (VInt 5)
   /\ resolve_path "a.b" new = Some (VInt 5))
  /\ (let old := VDict [("", VDict [("a", VInt 1)])] in
      let new := VDict [("", VDict [("a", VInt 2)])] in
      compare_dicts old new "" = [modified "a" (VInt 1) (VInt 2)]
      /\ resolve_path "a" old = None)
  /\ (let old := VDict [("/", VInt 1)] in
      let new := VDict [("/", VInt 2)] in
      compare_dicts old new "" = [modified "/" (VInt 1) (VInt 2)]
      /\ resolve_path "/" old = Some old)
  /\ (let old := VDict [("[0]", VInt 1)] in
      let new := VDict [("[0]", VInt 2)] in
      compare_dicts old new "" = [modified "[0]" (VInt 1) (VInt 2)]
      /\ resolve_path "[0]" old = None).
Proof. repeat split; reflexivity. Qed.

(* ================================================================== *)
(** ** No two records at one path *)
(* ================================================================== *)

Lemma full_path_inj path a b : full_path path a = full_path path b -> a = b.
Proof.
  unfold full_path. destruct (truthy path); [|auto].
  intros H. now apply string_app_inv_head, string_app_inv_head in H.
Qed.

Lemma full_path_truthy path k : truthy k = true -> truthy (full_path path k) = true.
Proof.
  intros Hk. unfold full_path. destruct (truthy path) eqn:Hp; [|exact Hk].
  now apply truthy_app.
Qed.

Lemma record_path_removed p v : record_path (removed p v) = p.
Proof. reflexivity. Qed.

Lemma record_path_added p v : record_path (added p v) = p.
Proof. reflexivity. Qed.

(** The records of a diff started at a non-empty path are at that path or
    under it. *)
Lemma record_path_under old new path r :
  truthy path = true ->
  In r (compare_dicts old new path) ->
  at_or_under path (record_path r).
Proof.
  intros Hp Hr.
  destruct (compare_dicts_emitted old new path r Hr) as [segs Hs].
  destruct Hs as [(v & -> & Hs) | [(v & -> & Hs) | (ov & nv & -> & _)]].
  - right. apply (extend_path_under path segs Hp Hs).
  - right. apply (extend_path_under path segs Hp Hs).
  - change (record_path (modified (or_slash (extend_path path segs)) ov nv))
      with (or_slash (extend_path path segs)).
    destruct segs as [|s segs].
    + left. simpl. unfold or_slash. now rewrite Hp.
    + right.
      destruct (extend_path_under path (s :: segs) Hp) as [rest E];
        [discriminate|].
      exists rest. rewrite E. unfold or_slash.
      now rewrite truthy_app by exact Hp.
Qed.

(** A piece without a dot is determined by the string it begins, up to
    the next dot. *)
Lemma piece_unique k1 :
  forall k2 x1 x2,
    has_dot k1 = false -> has_dot k2 = false ->
    (x1 = "" \/ exists r, x1 = "." ++ r) ->
    (x2 = "" \/ exists r, x2 = "." ++ r) ->
    k1 ++ x1 = k2 ++ x2 -> k1 = k2.
Proof.
  induction k1 as [|c k1 IH]; intros [|c' k2] x1 x2 H1 H2 X1 X2 E; simpl in *.
  - reflexivity.
  - exfalso. apply orb_false_iff in H2. destruct H2 as [Hc _].
    destruct X1 as [-> | [r ->]]; [discriminate|].
    injection E as <- _. discriminate.
  - exfalso. apply orb_false_iff in H1. destruct H1 as [Hc _].
    destruct X2 as [-> | [r ->]]; [discriminate|].
    injection E as -> _. discriminate.
  - apply orb_false_iff in H1, H2. injection E as <- E. f_equal.
    apply (IH k2 x1 x2); tauto.
Qed.

Lemma groups_disjoint path k1 k2 p :
  has_dot k1 = false -> has_dot k2 = false ->
  at_or_under (full_path path k1) p ->
  at_or_under (full_path path k2) p ->
  k1 = k2.
Proof.
  intros H1 H2 U1 U2.
  assert (Pre : exists pre, forall k, full_path path k = pre ++ k).
  { unfold full_path. destruct (truthy path).
    - exists (path ++ "."). intros k. now rewrite string_app_assoc.
    - now exists "". }
  destruct Pre as [pre Pre].
  assert (Form : forall k, at_or_under (full_path path k) p ->
                 exists x, p = pre ++ k ++ x
                           /\ (x = "" \/ exists r, x = "." ++ r)).
  { intros k [-> | [rest ->]]; rewrite Pre.
    - exists "". split; [|now left].
      rewrite <- (string_app_assoc pre k "").
      clear. induction (pre ++ k) as [|c s IH]; simpl; [reflexivity | now f_equal].
    - exists ("." ++ rest). split; [now rewrite string_app_assoc | right; eauto]. }
  destruct (Form k1 U1) as (x1 & E1 & X1).
  destruct (Form k2 U2) as (x2 & E2 & X2).
  rewrite E1 in E2. apply string_app_inv_head in E2.
  exact (piece_unique k1 k2 x1 x2 H1 H2 X1 X2 E2).
Qed.

Lemma map_flat_map {A B C} (f : B -> C) (g : A -> list B) l :
  map f (flat_map g l) = flat_map (fun a => map f (g a)) l.
Proof.
  induction l as [|a l IH]; simpl; [reflexivity|].
  now rewrite map_app, IH.
Qed.

Lemma NoDup_map_on {A B} (f : A -> B) l :
  NoDup l -> (forall a b, In a l -> In b l -> f a = f b -> a = b) ->
  NoDup (map f l).
Proof.
  induction 1 as [|a l Ha _ IH]; intros Hinj; simpl; constructor.
  - intros Hin. apply in_map_iff in Hin. destruct Hin as (b & E & Hb).
    apply Ha. rewrite (Hinj a b); [exact Hb | now left | now right | now symmetry].
  - apply IH. intros x y Hx Hy. apply Hinj; now right.
Qed.

(** Groups of path strings, each under the path of its own label, are
    pairwise disjoint when the labels are distinct and without dot. *)
Lemma NoDup_grouped {A} (lab : A -> string) (g : A -> list string)
    (path : string) (l : list A) :
  NoDup (map lab l) ->
  (forall a, In a l -> has_dot (lab a) = false) ->
  (forall a, In a l -> NoDup (g a)) ->
  (forall a p, In a l -> In p (g a) -> at_or_under (full_path path (lab a)) p) ->
  NoDup (flat_map g l).
Proof.
  induction l as [|a l IH]; intros Hl Hd Hg Hu; simpl; [constructor|].
  inversion Hl as [|? ? Ha Hl']; subst.
  apply NoDup_app.
  - apply Hg. now left.
  - apply IH; auto.
    + intros b Hb. apply Hd. now right.
    + intros b Hb. apply Hg. now right.
    + intros b p Hb. apply Hu. now right.
  - intros p Hp Hq. apply in_flat_map in Hq. destruct Hq as (b & Hb & Hq).
    apply Ha. apply in_map_iff. exists b. split; [|exact Hb].
    symmetry. apply (groups_disjoint path (lab a) (lab b) p).
    + apply Hd. now left.
    + apply Hd. now right.
    + apply Hu; [now left | exact Hp].
    + apply Hu; [now right | exact Hq].
Qed.

Lemma simple_keys_item x l :
  simple_keys (VList l) = true -> In x l -> simple_keys x = true.
Proof. simpl. rewrite forallb_forall. auto. Qed.

Lemma simple_keys_entry k v d :
  simple_keys (VDict d) = true -> In (k, v) d ->
  simple_key k = true /\ simple_keys v = true.
Proof.
  simpl. rewrite forallb_forall. intros H Hin.
  specialize (H _ Hin). simpl in H. now apply andb_true_iff in H.
Qed.

Lemma simple_key_facts k :
  simple_key k = true -> has_dot k = false /\ truthy k = true.
Proof.
  unfold simple_key. rewrite andb_true_iff, !negb_true_iff.
  intros [Hk Hd]. split; [exact Hd|]. now destruct k.
Qed.

Lemma compare_dicts_paths_NoDup old :
  forall new path,
    wf old = true -> wf new = true ->
    simple_keys old = true -> simple_keys new = true ->
    NoDup (map record_path (compare_dicts old new path)).
Proof.
  assert (Leaf : forall old new path,
             is_dict old && is_dict new = false ->
             is_list old && is_list new = false ->
             NoDup (map record_path (compare_dicts old new path))).
  { intros o n path Hd Hl. rewrite (compare_dicts_leaf o n path Hd Hl).
    destruct (py_ne o n); simpl; repeat constructor. intros []. }
  induction old using value_induction; intros new path Wo Wn So Sn;
    try (apply Leaf; reflexivity).
  - (* lists *)
    destruct new as [| | | | |new_l|]; try (apply Leaf; reflexivity).
    rewrite compare_dicts_items. cbv zeta.
    set (m := Nat.min (List.length items) (List.length new_l)).
    rewrite map_app, map_flat_map.
    assert (Hin : forall i, In i (seq 0 m) ->
                  In (nth i items VNone) items /\ In (nth i new_l VNone) new_l).
    { intros i Hi. apply in_seq in Hi. unfold m in Hi.
      split; apply nth_In; lia. }
    assert (Hunder : forall i p,
              In p (map record_path
                      (compare_dicts (nth i items VNone) (nth i new_l VNone)
                         (full_path path (bracket i)))) ->
              at_or_under (full_path path (bracket i)) p).
    { intros i p Hp. apply in_map_iff in Hp. destruct Hp as (r & <- & Hr).
      eapply record_path_under; [|exact Hr].
      now apply full_path_truthy. }
    apply NoDup_app.
    + apply (NoDup_grouped bracket _ path).
      * apply NoDup_map_on; [apply seq_NoDup|].
        intros i j _ _. apply bracket_inj.
      * intros i _. apply has_dot_bracket.
      * intros i Hi. destruct (Hin i Hi) as [Ho Hn].
        apply H; [exact Ho | | | |].
        -- exact (wf_item _ _ Wo Ho).
        -- exact (wf_item _ _ Wn Hn).
        -- exact (simple_keys_item _ _ So Ho).
        -- exact (simple_keys_item _ _ Sn Hn).
      * intros i p _. apply Hunder.
    + destruct (List.length new_l <? List.length items)%nat;
        [| destruct (List.length items <? List.length new_l)%nat;
           [| constructor]];
        rewrite map_map; (apply NoDup_map_on; [apply seq_NoDup|]);
        intros i j _ _; simpl; intros E;
        apply bracket_inj, (full_path_inj path); exact E.
    + intros p Hp Hq. apply in_flat_map in Hp. destruct Hp as (i & Hi & Hp).
      apply Hunder in Hp. apply in_seq in Hi.
      assert (Hj : exists j, m <= j /\ p = full_path path (bracket j)).
      { destruct (List.length new_l <? List.length items)%nat;
          [| destruct (List.length items <? List.length new_l)%nat;
             [| destruct Hq]];
          rewrite map_map in Hq; apply in_map_iff in Hq;
          destruct Hq as (j & <- & Hj); apply in_seq in Hj;
          exists j; (split; [lia | reflexivity]). }
      destruct Hj as (j & Hmj & ->).
      assert (E : bracket i = bracket j).
      { apply (groups_disjoint path _ _ (full_path path (bracket j)));
          [apply has_dot_bracket | apply has_dot_bracket | exact Hp | now left]. }
      apply bracket_inj in E. lia.
  - (* dicts *)
    destruct new as [| | | | | |new_d]; try (apply Leaf; reflexivity).
    rewrite compare_dicts_entries, map_app, !map_flat_map.
    assert (Hold : forall kv p,
              In kv entries ->
              In p (map record_path
                      match dict_get (fst kv) new_d with
                      | Some new_k =>
                          compare_dicts (snd kv) new_k
                            (full_path path (fst kv))
                      | None => [removed (full_path path (fst kv)) (snd kv)]
                      end) ->
              at_or_under (full_path path (fst kv)) p).
    { intros [k v] p Hkv Hp. simpl in *.
      destruct (simple_keys_entry k v entries So Hkv) as [Hk _].
      destruct (dict_get k new_d) as [w|].
      - apply in_map_iff in Hp. destruct Hp as (r & <- & Hr).
        eapply record_path_under; [|exact Hr].
        apply full_path_truthy. apply (simple_key_facts k Hk).
      - destruct Hp as [<-|[]]. now left. }
    assert (Hnew : forall kv p,
              In p (map record_path
                      (if dict_contains (fst kv) entries then []
                       else [added (full_path path (fst kv)) (snd kv)])) ->
              dict_contains (fst kv) entries = false
              /\ p = full_path path (fst kv)).
    { intros [k v] p Hp. simpl in *.
      destruct (dict_contains k entries); [destruct Hp|].
      destruct Hp as [<-|[]]. now split. }
    apply NoDup_app.
    + apply (NoDup_grouped fst _ path).
      * apply distinct_keys_NoDup, wf_keys, Wo.
      * intros [k v] Hkv.
        destruct (simple_keys_entry k v entries So Hkv) as [Hk _].
        apply (simple_key_facts k Hk).
      * intros [k v] Hkv. simpl.
        destruct (dict_get k new_d) as [w|] eqn:Hw.
        -- destruct (simple_keys_entry k v entries So Hkv) as [_ Sv].
           apply dict_get_In in Hw.
           destruct (simple_keys_entry k w new_d Sn Hw) as [_ Sw].
           apply (H k v Hkv);
             [exact (wf_entry k v entries Wo Hkv)
             | exact (wf_entry k w new_d Wn Hw) | exact Sv | exact Sw].
        -- simpl. repeat constructor. intros [].
      * intros kv p Hkv. now apply Hold.
    + apply (NoDup_grouped fst _ path).
      * apply distinct_keys_NoDup, wf_keys, Wn.
      * intros [k v] Hkv.
        destruct (simple_keys_entry k v new_d Sn Hkv) as [Hk _].
        apply (simple_key_facts k Hk).
      * intros [k v] _. simpl.
        destruct (dict_contains k entries); repeat constructor. intros [].
      * intros kv p _ Hp. destruct (Hnew kv p Hp) as [_ ->]. now left.
    + intros p Hp Hq.
      apply in_flat_map in Hp. destruct Hp as ([k1 v1] & Hkv1 & Hp).
      apply in_flat_map in Hq. destruct Hq as ([k2 v2] & Hkv2 & Hq).
      apply (Hold (k1, v1) p Hkv1) in Hp.
      destruct (Hnew (k2, v2) p Hq) as [Hc ->]. simpl in *.
      destruct (simple_keys_entry k1 v1 entries So Hkv1) as [Hk1 _].
      destruct (simple_keys_entry k2 v2 new_d Sn Hkv2) as [Hk2 _].
      assert (E : k1 = k2).
      { apply (groups_disjoint path k1 k2 (full_path path k2));
          [apply (simple_key_facts k1 Hk1) | apply (simple_key_facts k2 Hk2)
          | exact Hp | now left]. }
      subst k2. rewrite (dict_contains_true k1 v1 entries Hkv1) in Hc.
      discriminate.
Qed.

(** X16.  When every key of the two documents is not empty and holds no
    dot, no two change records of a diff have the same path string. *)
Theorem change_record_paths_distinct (old new : value) (path : string) :
  wf old = true -> wf new = true ->
  simple_keys old = true -> simple_keys new = true ->
  NoDup (map record_path (compare_dicts old new path)).
Proof. intros. now apply compare_dicts_paths_NoDup. Qed.

(** With a dot in a key two records can share a path string. *)
Example dotted_key_shares_path :
  compare_dicts
    (VDict [("a", VDict [("b", VInt 1)]); ("a.b", VInt 1)])
    (VDict [("a", VDict [("b", VInt 2)]); ("a.b", VInt 2)]) ""
  = [modified "a.b" (VInt 1) (VInt 2); modified "a.b" (VInt 1) (VInt 2)].
Proof. reflexivity. Qed.

(* ================================================================== *)
(** ** The further statements at concrete inputs *)
(* ================================================================== *)

Lemma change_record_forms_at_docs :
  In (added "b" (VInt 2)) (compare_dicts doc_old doc_new "")
  /\ ((exists p v, added "b" (VInt 2) = removed p v)
      \/ (exists p v, added "b" (VInt 2) = added p v)
      \/ (exists p ov nv, added "b" (VInt 2) = modified p ov nv
                          /\ is_dict ov && is_dict nv = false
                          /\ is_list ov && is_list nv = false
                          /\ py_eq ov nv = false)).
Proof.
  split; [right; now left|].
  apply (change_record_forms doc_old doc_new ""). right. now left.
Defined.

Lemma change_record_under_path_at_docs :
  "r" <> ""
  /\ In (modified "r.a.[0]" (VInt 1) (VInt 2)) (compare_dicts doc_old doc_new "r")
  /\ exists p,
       record_get "path" (modified "r.a.[0]" (VInt 1) (VInt 2)) = Some (VStr p)
       /\ (p = "r" \/ String.prefix ("r" ++ ".") p = true).
Proof.
  split; [discriminate|]. split; [now left|].
  apply (change_record_under_path doc_old doc_new "r");
    [discriminate | now left].
Defined.

Lemma compare_dicts_empty_iff_equal_at_docs :
  json_value doc_old = true /\ json_value doc_new = true
  /\ (compare_dicts doc_old doc_new "" = [] <-> py_eq doc_old doc_new = true).
Proof.
  split; [reflexivity|]. split; [reflexivity|].
  apply (compare_dicts_empty_iff_equal doc_old doc_new ""); reflexivity.
Defined.

Lemma compare_dicts_exchange_at_docs :
  wf doc_old = true /\ wf doc_new = true
  /\ (forall p v, In (removed p v) (compare_dicts doc_old doc_new "")
                  <-> In (added p v) (compare_dicts doc_new doc_old ""))
  /\ (forall p v, In (added p v) (compare_dicts doc_old doc_new "")
                  <-> In (removed p v) (compare_dicts doc_new doc_old ""))
  /\ (forall p a b, In (modified p a b) (compare_dicts doc_old doc_new "")
                    <-> In (modified p b a) (compare_dicts doc_new doc_old "")).
Proof.
  split; [reflexivity|]. split; [reflexivity|].
  apply (compare_dicts_exchange doc_old doc_new ""); reflexivity.
Defined.

Lemma compare_dicts_appended_at_list :
  json_value (VList [VInt 1; VInt 2]) = true
  /\ compare_dicts (VList [VInt 1; VInt 2])
       (VList ([VInt 1; VInt 2] ++ [VInt 3; VNone])) "x"
     = [added "x.[2]" (VInt 3); added "x.[3]" VNone]
  /\ compare_dicts (VList ([VInt 1; VInt 2] ++ [VInt 3; VNone]))
       (VList [VInt 1; VInt 2]) "x"
     = [removed "x.[2]" (VInt 3); removed "x.[3]" VNone].
Proof.
  split; [reflexivity|].
  destruct (compare_dicts_appended [VInt 1; VInt 2] [VInt 3; VNone] "x" eq_refl)
    as [Ea Er].
  split; [rewrite Ea | rewrite Er]; reflexivity.
Defined.

Lemma compare_dicts_extended_at_dict :
  json_value (VDict [("a", VInt 1)]) = true
  /\ distinct_keys (dict_keys ([("a", VInt 1)] ++ [("b", VInt 2)])) = true
  /\ compare_dicts (VDict [("a", VInt 1)])
       (VDict ([("a", VInt 1)] ++ [("b", VInt 2)])) ""
     = [added "b" (VInt 2)]
  /\ compare_dicts (VDict ([("a", VInt 1)] ++ [("b", VInt 2)]))
       (VDict [("a", VInt 1)]) ""
     = [removed "b" (VInt 2)].
Proof.
  split; [reflexivity|]. split; [reflexivity|].
  destruct (compare_dicts_extended [("a", VInt 1)] [("b", VInt 2)] ""
              eq_refl eq_refl) as [Ea Er].
  split; [rewrite Ea | rewrite Er]; reflexivity.
Defined.

Lemma compare_dicts_key_order_at_dicts :
  distinct_keys (dict_keys [("a", VInt 1); ("c", VNone)]) = true
  /\ distinct_keys (dict_keys [("a", VInt 2); ("b", VInt 2)]) = true
  /\ Permutation [("a", VInt 1); ("c", VNone)] [("c", VNone); ("a", VInt 1)]
  /\ Permutation [("a", VInt 2); ("b", VInt 2)] [("b", VInt 2); ("a", VInt 2)]
  /\ Permutation
       (compare_dicts (VDict [("a", VInt 1); ("c", VNone)])
          (VDict [("a", VInt 2); ("b", VInt 2)]) "")
       (compare_dicts (VDict [("c", VNone); ("a", VInt 1)])
          (VDict [("b", VInt 2); ("a", VInt 2)]) "").
Proof.
  split; [reflexivity|]. split; [reflexivity|].
  split; [apply perm_swap|]. split; [apply perm_swap|].
  apply (compare_dicts_key_order
           [("a", VInt 1); ("c", VNone)] [("c", VNone); ("a", VInt 1)]
           [("a", VInt 2); ("b", VInt 2)] [("b", VInt 2); ("a", VInt 2)] "");
    [reflexivity | reflexivity | apply perm_swap | apply perm_swap].
Defined.




Lemma compare_files_keeps_other_files_at_json_world :
  let run :=
    compare_files demo_json_loads demo_xmltodict_parse demo_json_dumps
      (fun _ => "") demo_splitlines demo_unified_diff demo_make_file
      (fun p => p) demo_decode_text demo_encode_text
      "a.json" "b.json" demo_json_world in
  run = (fst run, snd run)
  /\ "a.json" <> "diff_output/diff_report.txt"
  /\ "a.json" <> "diff_output/diff_report.html"
  /\ "a.json" <> "diff_output/diff_report.json"
  /\ file_text "a.json" (files (snd run))
     = file_text "a.json" (files demo_json_world).
Proof.
  cbv zeta. split; [reflexivity|].
  split; [discriminate|]. split; [discriminate|]. split; [discriminate|].
  apply (compare_files_keeps_other_files
           demo_json_loads demo_xmltodict_parse demo_json_dumps
           (fun _ => "") demo_splitlines demo_unified_diff demo_make_file
           (fun p => p) demo_decode_text demo_encode_text
           "a.json" "b.json" demo_json_world
           (snd (compare_files demo_json_loads demo_xmltodict_parse
                   demo_json_dumps (fun _ => "") demo_splitlines
                   demo_unified_diff demo_make_file (fun p => p)
                   demo_decode_text demo_encode_text
                   "a.json" "b.json" demo_json_world))
           (fst (compare_files demo_json_loads demo_xmltodict_parse
                   demo_json_dumps (fun _ => "") demo_splitlines
                   demo_unified_diff demo_make_file (fun p => p)
                   demo_decode_text demo_encode_text
                   "a.json" "b.json" demo_json_world))
           "a.json");
    [reflexivity | discriminate | discriminate | discriminate].
Defined.

Lemma main_rejects_at_one_argument :
  (List.length ["compare_responses.py"; "a.json"] <> 3
   \/ (file_text (nth 1 ["compare_responses.py"; "a.json"] "")
         (files demo_json_world) = None
       /\ mem_key (nth 1 ["compare_responses.py"; "a.json"] "")
            (dirs demo_json_world) = false)
   \/ (file_text (nth 2 ["compare_responses.py"; "a.json"] "")
         (files demo_json_world) = None
       /\ mem_key (nth 2 ["compare_responses.py"; "a.json"] "")
            (dirs demo_json_world) = false))
  /\ exists line,
       main demo_json_loads demo_xmltodict_parse demo_json_dumps
         (fun _ => "") demo_splitlines demo_unified_diff demo_make_file
         (fun p => p) demo_decode_text demo_encode_text
         ["compare_responses.py"; "a.json"] demo_json_world
       = (Raises (SystemExit 1),
          mkWorld (files demo_json_world) (dirs demo_json_world)
            (stdout demo_json_world ++ [line])%list)
       /\ line =
          if (List.length ["compare_responses.py"; "a.json"] =? 3)%nat
          then "❌ Error: One or both files not found."
          else "Usage: python scripts/compare_responses.py <old_file> <new_file>".
Proof.
  split; [left; discriminate|].
  apply (main_rejects demo_json_loads demo_xmltodict_parse demo_json_dumps
           demo_splitlines demo_unified_diff demo_make_file (fun p => p)
           demo_decode_text demo_encode_text
           (fun _ => "") ["compare_responses.py"; "a.json"] demo_json_world).
  left. discriminate.
Defined.


Lemma change_record_resolves_at_docs :
  wf doc_old = true /\ wf doc_new = true
  /\ plain_keys doc_old = true /\ plain_keys doc_new = true
  /\ In (modified "a.[0]" (VInt 1) (VInt 2)) (compare_dicts doc_old doc_new "")
  /\ resolve_path "a.[0]" doc_old = Some (VInt 1)
  /\ resolve_path "a.[0]" doc_new = Some (VInt 2)
  /\ ((exists p ov, modified "a.[0]" (VInt 1) (VInt 2) = removed p ov
                    /\ resolve_path p doc_old = Some ov)
      \/ (exists p nv, modified "a.[0]" (VInt 1) (VInt 2) = added p nv
                       /\ resolve_path p doc_new = Some nv)
      \/ (exists p ov nv,
             modified "a.[0]" (VInt 1) (VInt 2) = modified p ov nv
             /\ resolve_path p doc_old = Some ov
             /\ resolve_path p doc_new = Some nv)).
Proof.
  repeat (split; [reflexivity|]). split; [now left|].
  repeat (split; [reflexivity|]).
  apply (change_record_resolves doc_old doc_new);
    [reflexivity | reflexivity | reflexivity | reflexivity | now left].
Defined.

Lemma change_record_paths_distinct_at_docs :
  wf doc_old = true /\ wf doc_new = true
  /\ simple_keys doc_old = true /\ simple_keys doc_new = true
  /\ NoDup (map record_path (compare_dicts doc_old doc_new "r")).
Proof.
  repeat (split; [reflexivity|]).
  apply (change_record_paths_distinct doc_old doc_new "r"); reflexivity.
Defined.
